(** * The FreeType charmap cache (ftccmap.c)

    A shallow embedding of the cmap cache node callbacks
    ([ftc_cmap_node_new], [ftc_cmap_node_weight], [ftc_cmap_node_compare])
    and of the lookup protocol [FTC_CMapCache_Lookup], followed by the
    properties the specification states about them.

    C integers are values of [Z] with the wrap-around of each conversion
    written out; the node's [indices] array is a list updated by index;
    the cache, the faces of the manager, the allocator and the calls made
    to the font service are fields of an explicit [World] threaded through
    the code by a small state monad. *)

From stdpp Require Import base tactics option numbers list gmap.
From Stdlib Require Import ZArith Lia.

Local Open Scope Z_scope.

(** ** Machine integers *)

(** Conversion to [FT_TS_UInt32] / [FT_TS_UInt] (32-bit unsigned). *)
Definition to_uint32 (z : Z) : Z := z mod 2 ^ 32.

(** Conversion to [FT_TS_UInt16] / [FT_TS_UShort] (16-bit unsigned). *)
Definition to_uint16 (z : Z) : Z := z mod 2 ^ 16.

(** Conversion to [FT_TS_Offset] (size_t, taken as 64 bits wide). *)
Definition to_offset (z : Z) : Z := z mod 2 ^ 64.

Definition is_uint32 (z : Z) : Prop := 0 <= z < 2 ^ 32.
Definition is_uint16 (z : Z) : Prop := 0 <= z < 2 ^ 16.
(** A value of [FT_TS_Int] (32-bit signed). *)
Definition is_int32 (z : Z) : Prop := - 2 ^ 31 <= z < 2 ^ 31.

(** ** Constants and records of ftccmap.c *)

(** [#define FTC_CMAP_INDICES_MAX 128] *)
Definition FTC_CMAP_INDICES_MAX : Z := 128.

(** [#define FTC_CMAP_UNKNOWN (FT_TS_UInt16)~0] *)
Definition FTC_CMAP_UNKNOWN : Z := to_uint16 (Z.lnot 0).

(** [FTC_FaceID] is an opaque pointer; [FT_TS_Error] is an integer, zero
    meaning success. *)
Abbreviation FTC_FaceID := Z (only parsing).
Abbreviation FT_TS_Error := Z (only parsing).
Definition FT_TS_Err_Ok : FT_TS_Error := 0.
Definition FT_TS_Err_Out_Of_Memory : FT_TS_Error := 64.
Definition FT_TS_Err_Invalid_Face_Handle : FT_TS_Error := 35.

(** [FTC_CMapQueryRec] *)
Record FTC_CMapQueryRec := mkQuery {
  q_face_id    : FTC_FaceID;
  q_cmap_index : Z;          (* FT_TS_UInt   *)
  q_char_code  : Z           (* FT_TS_UInt32 *)
}.

(** [FTC_CMapNodeRec], without the generic [FTC_NodeRec] header, which
    belongs to the cache manager. *)
Record FTC_CMapNodeRec := mkNode {
  face_id    : FTC_FaceID;
  cmap_index : Z;            (* FT_TS_UInt   *)
  first      : Z;            (* FT_TS_UInt32 *)
  indices    : list Z        (* FT_TS_UInt16 [FTC_CMAP_INDICES_MAX] *)
}.

(** ** Node callbacks *)

(** The loop [for ( nn = 0; nn < FTC_CMAP_INDICES_MAX; nn++ )
    node->indices[nn] = FTC_CMAP_UNKNOWN;], run for [count] rounds from
    [nn] on the array [ind]. *)
Fixpoint fill_unknown (count : nat) (nn : nat) (ind : list Z) : list Z :=
  match count with
  | O => ind
  | S count' => fill_unknown count' (S nn) (<[nn := FTC_CMAP_UNKNOWN]> ind)
  end.

(** [ftc_cmap_node_new].  [mem] is the outcome of [FT_TS_QNEW( node )]:
    [None] when the allocation fails, [Some raw] with the uninitialised
    block otherwise.  The result is the error code and [*anode]. *)
Definition ftc_cmap_node_new (mem : option FTC_CMapNodeRec)
    (query : FTC_CMapQueryRec) : FT_TS_Error * option FTC_CMapNodeRec :=
  match mem with
  | Some raw =>
      (FT_TS_Err_Ok,
       Some {| face_id    := q_face_id query;
               cmap_index := q_cmap_index query;
               first      := to_uint32 (to_uint32 (q_char_code query / FTC_CMAP_INDICES_MAX)
                                        * FTC_CMAP_INDICES_MAX);
               indices    := fill_unknown (Z.to_nat FTC_CMAP_INDICES_MAX) 0 (indices raw) |})
  | None => (FT_TS_Err_Out_Of_Memory, None)
  end.

(** Sizes of the C types the node record is made of, in bytes.  The
    generic header [FTC_NodeRec] is declared by the cache manager. *)
Record C_ABI := mkABI {
  sizeof_FTC_NodeRec : N;     (* sizeof ( FTC_NodeRec ) *)
  sizeof_FTC_FaceID  : N;     (* sizeof ( FTC_FaceID )  *)
  sizeof_FT_TS_UInt  : N;     (* sizeof ( FT_TS_UInt )  *)
  cmap_node_padding  : N      (* padding inside FTC_CMapNodeRec *)
}.

(** [sizeof ( FTC_CMapNodeRec )]: header, face_id, cmap_index, first
    (4 bytes) and 128 two-byte indices. *)
Definition sizeof_FTC_CMapNodeRec (abi : C_ABI) : N :=
  (sizeof_FTC_NodeRec abi + sizeof_FTC_FaceID abi + sizeof_FT_TS_UInt abi
   + 4 + Z.to_N FTC_CMAP_INDICES_MAX * 2 + cmap_node_padding abi)%N.

(** [ftc_cmap_node_weight].  Its parameter [cnode] has type [FTC_Node],
    a pointer to [FTC_NodeRec], so [sizeof ( *cnode )] is the size of the
    header. *)
Definition ftc_cmap_node_weight (abi : C_ABI) (cnode : FTC_CMapNodeRec) : N :=
  sizeof_FTC_NodeRec abi.

(** [ftc_cmap_node_compare].  [list_changed] is the optional out
    parameter, cleared when present; the result pairs the returned
    boolean with its final value. *)
Definition ftc_cmap_node_compare (node : FTC_CMapNodeRec)
    (query : FTC_CMapQueryRec) (list_changed : option bool) : bool * option bool :=
  let list_changed := match list_changed with Some _ => Some false | None => None end in
  if bool_decide (face_id node = q_face_id query)
     && bool_decide (cmap_index node = q_cmap_index query)
  then
    let offset := to_uint32 (q_char_code query - first node) in
    (bool_decide (offset < FTC_CMAP_INDICES_MAX), list_changed)
  else (false, list_changed).

(** [ftc_cmap_node_remove_faceid] *)
Definition ftc_cmap_node_remove_faceid (node : FTC_CMapNodeRec)
    (fid : FTC_FaceID) (list_changed : option bool) : bool * option bool :=
  (bool_decide (face_id node = fid),
   match list_changed with Some _ => Some false | None => None end).

(** The shape [ftc_cmap_node_new] gives every node: [first] is a 32-bit
    multiple of 128 and the array has its 128 cells. *)
Definition node_ok (n : FTC_CMapNodeRec) : Prop :=
  is_uint32 (first n)
  /\ first n mod FTC_CMAP_INDICES_MAX = 0
  /\ length (indices n) = Z.to_nat FTC_CMAP_INDICES_MAX
  /\ Forall is_uint16 (indices n).

(** ** The font objects and the world the lookup runs in *)

(** [FT_TS_CharMap] and [FT_TS_Face] are pointers; a charmap pointer is
    an address (0 is NULL) and a face pointer is the key of its record in
    the store of faces. *)
Abbreviation FT_TS_CharMap := Z (only parsing).
Abbreviation FT_TS_Face := Z (only parsing).

(** The fields of [FT_TS_FaceRec] the lookup reads, and the glyph index
    each of the face's charmaps gives to a character code. *)
Record FT_TS_FaceRec := mkFace {
  num_charmaps : Z;                       (* FT_TS_Int *)
  charmaps     : list FT_TS_CharMap;
  charmap      : FT_TS_CharMap;           (* the active charmap *)
  glyph_of     : FT_TS_CharMap -> Z -> Z
}.

Definition null_face : FT_TS_FaceRec :=
  {| num_charmaps := 0; charmaps := []; charmap := 0; glyph_of := fun _ _ => 0 |}.

Definition null_node : FTC_CMapNodeRec :=
  {| face_id := 0; cmap_index := 0; first := 0; indices := [] |}.

(** Calls made to the font resolver and to the font service. *)
Inductive Event :=
| EvLookupFace (fid : FTC_FaceID)
| EvSetCharmap (face : FT_TS_Face) (cmap : FT_TS_CharMap)
| EvGetCharIndex (face : FT_TS_Face) (active : FT_TS_CharMap) (code : Z).

Definition is_set_charmap (e : Event) : bool :=
  match e with EvSetCharmap _ _ => true | _ => false end.

(** The cache handle passed to the lookup: NULL, or the cmap cache of the
    world. *)
Inductive FTC_CMapCache := cache_null | cache_live.

Record World := mkWorld {
  w_nodes : list (Z * FTC_CMapNodeRec);      (* cached nodes with their hash *)
  w_faces : gmap FTC_FaceID FT_TS_FaceRec;   (* the faces the manager resolves *)
  w_alloc : list (option FTC_CMapNodeRec);   (* outcomes of the coming allocations *)
  w_trace : list Event                       (* calls made so far, oldest first *)
}.

Definition with_nodes (w : World) (ns : list (Z * FTC_CMapNodeRec)) : World :=
  mkWorld ns (w_faces w) (w_alloc w) (w_trace w).
Definition with_faces (w : World) (fs : gmap FTC_FaceID FT_TS_FaceRec) : World :=
  mkWorld (w_nodes w) fs (w_alloc w) (w_trace w).
Definition with_alloc (w : World) (a : list (option FTC_CMapNodeRec)) : World :=
  mkWorld (w_nodes w) (w_faces w) a (w_trace w).
Definition emit (e : Event) (w : World) : World :=
  mkWorld (w_nodes w) (w_faces w) (w_alloc w) (w_trace w ++ [e]).

(** A state monad over the world. *)
Definition M (A : Type) : Type := World -> A * World.
Definition ret {A} (a : A) : M A := fun w => (a, w).
Definition bind {A B} (c : M A) (k : A -> M B) : M B :=
  fun w => let (a, w') := c w in k a w'.
Definition when (b : bool) (c : M unit) : M unit := if b then c else ret tt.

Notation "x <~ c ;; k" := (bind c (fun x => k))
  (at level 100, c at next level, right associativity).
Notation "c ;;; k" := (bind c (fun _ => k))
  (at level 100, right associativity).

Definition set_face_charmap (cmap : FT_TS_CharMap) (f : FT_TS_FaceRec) : FT_TS_FaceRec :=
  {| num_charmaps := num_charmaps f; charmaps := charmaps f;
     charmap := cmap; glyph_of := glyph_of f |}.

Definition set_node_index (off : nat) (v : Z) (hn : Z * FTC_CMapNodeRec) :
    Z * FTC_CMapNodeRec :=
  (hn.1, {| face_id := face_id hn.2; cmap_index := cmap_index hn.2;
            first := first hn.2; indices := <[off := v]> (indices hn.2) |}).

(** Reading through a face or node pointer. *)
Definition deref_face (face : FT_TS_Face) : M FT_TS_FaceRec :=
  fun w => (default null_face (w_faces w !! face), w).
Definition deref_node (p : nat) : M FTC_CMapNodeRec :=
  fun w => (default null_node (snd <$> w_nodes w !! p), w).
(** [FTC_CMAP_NODE( node )->indices[off] = v] *)
Definition store_index (p : nat) (off : nat) (v : Z) : M unit :=
  fun w => (tt, with_nodes w (alter (set_node_index off v) p (w_nodes w))).

(** Modelled from the spec: [FTC_Manager_LookupFace], the font resolver,
    which is not part of ftccmap.c.  "Given an opaque face identifier,
    returns a live font object, or an error." *)
Definition FTC_Manager_LookupFace (fid : FTC_FaceID) : M (FT_TS_Error * option FT_TS_Face) :=
  fun w => match w_faces w !! fid with
           | Some _ => ((FT_TS_Err_Ok, Some fid), emit (EvLookupFace fid) w)
           | None => ((FT_TS_Err_Invalid_Face_Handle, None), emit (EvLookupFace fid) w)
           end.

(** Modelled from the spec: [FT_TS_Set_Charmap], the font service's
    "setActiveCharmap", which is not part of ftccmap.c: the given charmap
    becomes the active one of the face. *)
Definition FT_TS_Set_Charmap (face : FT_TS_Face) (cmap : FT_TS_CharMap) : M unit :=
  fun w => (tt, emit (EvSetCharmap face cmap)
                  (with_faces w (alter (set_face_charmap cmap) face (w_faces w)))).

(** Modelled from the spec: [FT_TS_Get_Char_Index], the font service's
    "glyphIndexForChar", which is not part of ftccmap.c: the glyph index
    of the code under the active charmap, an [FT_TS_UInt]. *)
Definition FT_TS_Get_Char_Index (face : FT_TS_Face) (code : Z) : M Z :=
  fun w => let f := default null_face (w_faces w !! face) in
           (to_uint32 (glyph_of f (charmap f) code),
            emit (EvGetCharIndex face (charmap f) code) w).

(** ** A concrete world, for evaluating the lookup *)

(** A face with a Unicode charmap at address 1000 and a symbol charmap at
    address 2000, the latter active; the symbol charmap has glyph
    indices beyond 16 bits. *)
Definition example_face : FT_TS_FaceRec :=
  {| num_charmaps := 2; charmaps := [1000; 2000]; charmap := 2000;
     glyph_of := fun cm c => if cm =? 1000 then c - 29
                             else if cm =? 2000 then c + 70000 else 0 |}.

(** An uninitialised block of memory. *)
Definition raw_block : FTC_CMapNodeRec :=
  {| face_id := 7; cmap_index := 7; first := 7;
     indices := replicate (Z.to_nat FTC_CMAP_INDICES_MAX) 43981 |}.

(** An empty cache, the face registered under the identifier 5, and
    memory for two nodes. *)
Definition example_world : World :=
  {| w_nodes := []; w_faces := {[ 5 := example_face ]};
     w_alloc := [Some raw_block; Some raw_block; None]; w_trace := [] |}.

(** A hash of face identifiers: the pointer shifted right by 3, xor the
    pointer shifted left by 7. *)
Definition pointer_hash (fid : FTC_FaceID) : Z :=
  Z.lxor (Z.shiftr fid 3) (Z.shiftl fid 7).

(** ** The PFR metrics API (ftpfr.c) *)

(** Error codes and the kerning mode of the FreeType headers. *)
Definition FT_TS_Err_Unknown_File_Format : FT_TS_Error := 2.
Definition FT_TS_Err_Invalid_Argument : FT_TS_Error := 6.
Definition FT_TS_KERNING_UNSCALED : Z := 2.

(** The memory the output parameters point into; a pointer is an address
    or NULL. *)
Abbreviation Memory := (gmap Z Z) (only parsing).

(** [face->size->metrics], the fields read here. *)
Record FT_TS_Size_Metrics := mkSizeMetrics {
  x_scale : Z;                (* FT_TS_Fixed *)
  y_scale : Z                 (* FT_TS_Fixed *)
}.

(** The fields of [FT_TS_FaceRec] that ftpfr.c reads; [size] is a pointer. *)
Record PFR_FaceRec := mkPfrFace {
  units_per_EM : Z;           (* FT_TS_UShort *)
  size : option FT_TS_Size_Metrics
}.

(** [FT_TS_Service_PfrMetricsRec]: the three function pointers of the
    service, each returning its error code and the memory it leaves. *)
Record FT_TS_Service_PfrMetricsRec := mkPfrService {
  get_metrics : PFR_FaceRec -> option Z -> option Z -> option Z -> option Z ->
                Memory -> FT_TS_Error * Memory;
  get_kerning : PFR_FaceRec -> Z -> Z -> Z -> Memory -> FT_TS_Error * Memory;
  get_advance : PFR_FaceRec -> Z -> Z -> Memory -> FT_TS_Error * Memory
}.

(** [if ( p ) *p = v;] *)
Definition write_if (p : option Z) (v : Z) (m : Memory) : Memory :=
  match p with Some a => <[a := v]> m | None => m end.

Section PfrApi.

(** [FT_TS_FACE_LOOKUP_SERVICE( face, service, PFR_METRICS )], a macro of
    the service headers: the PFR metrics service of the face's driver, or
    NULL. *)
Variable FT_TS_FACE_LOOKUP_SERVICE : PFR_FaceRec -> option FT_TS_Service_PfrMetricsRec.

(** [FT_TS_Get_Kerning], of the base layer: face, left, right, mode and
    the address of the vector. *)
Variable FT_TS_Get_Kerning : PFR_FaceRec -> Z -> Z -> Z -> Z -> Memory -> FT_TS_Error * Memory.

(** [ft_pfr_check] *)
Definition ft_pfr_check (face : option PFR_FaceRec) : option FT_TS_Service_PfrMetricsRec :=
  match face with
  | Some f => FT_TS_FACE_LOOKUP_SERVICE f
  | None => None
  end.

(** [FT_TS_Get_PFR_Metrics] *)
Definition FT_TS_Get_PFR_Metrics (face : option PFR_FaceRec)
    (aoutline_resolution ametrics_resolution ametrics_x_scale ametrics_y_scale : option Z)
    (m : Memory) : FT_TS_Error * Memory :=
  match face with
  | None => (FT_TS_Err_Invalid_Face_Handle, m)
  | Some f =>
      match ft_pfr_check face with
      | Some service =>
          get_metrics service f aoutline_resolution ametrics_resolution
                      ametrics_x_scale ametrics_y_scale m
      | None =>
          let m := write_if aoutline_resolution (to_uint32 (units_per_EM f)) m in
          let m := write_if ametrics_resolution (to_uint32 (units_per_EM f)) m in
          let '(xs, ys) :=
            match size f with
            | Some s => (x_scale s, y_scale s)
            | None => (65536, 65536)
            end in
          let m := write_if ametrics_x_scale xs m in
          let m := write_if ametrics_y_scale ys m in
          (FT_TS_Err_Unknown_File_Format, m)
      end
  end.

(** [FT_TS_Get_PFR_Kerning] *)
Definition FT_TS_Get_PFR_Kerning (face : option PFR_FaceRec) (left right : Z)
    (avector : option Z) (m : Memory) : FT_TS_Error * Memory :=
  match face with
  | None => (FT_TS_Err_Invalid_Face_Handle, m)
  | Some f =>
      match avector with
      | None => (FT_TS_Err_Invalid_Argument, m)
      | Some av =>
          match ft_pfr_check face with
          | Some service => get_kerning service f left right av m
          | None => FT_TS_Get_Kerning f left right FT_TS_KERNING_UNSCALED av m
          end
      end
  end.

(** [FT_TS_Get_PFR_Advance] *)
Definition FT_TS_Get_PFR_Advance (face : option PFR_FaceRec) (gindex : Z)
    (aadvance : option Z) (m : Memory) : FT_TS_Error * Memory :=
  match face with
  | None => (FT_TS_Err_Invalid_Face_Handle, m)
  | Some f =>
      match aadvance with
      | None => (FT_TS_Err_Invalid_Argument, m)
      | Some aa =>
          match ft_pfr_check face with
          | Some service => get_advance service f gindex aa m
          | None => (FT_TS_Err_Invalid_Argument, m)
          end
      end
  end.

End PfrApi.

(** A face without a size object, and one with. *)
Definition example_pfr_face : PFR_FaceRec := {| units_per_EM := 2048; size := None |}.
Definition example_sized_face : PFR_FaceRec :=
  {| units_per_EM := 1000; size := Some {| x_scale := 81920; y_scale := 98304 |} |}.

Section CMapCache.

(** [FTC_FACE_ID_HASH], a macro of the cache manager. *)
Variable FTC_FACE_ID_HASH : FTC_FaceID -> Z.

(** [FTC_CMAP_HASH( faceid, index, charcode )]; [index] is an
    [FT_TS_UInt], [charcode] an [FT_TS_UInt32], the sum an [FT_TS_Offset]. *)
Definition FTC_CMAP_HASH (faceid : FTC_FaceID) (index charcode : Z) : Z :=
  to_offset (to_offset (to_offset (FTC_FACE_ID_HASH faceid) + to_uint32 (211 * index))
             + to_uint32 (charcode / FTC_CMAP_INDICES_MAX)).

(** The test the cache manager applies to each node of the bucket: same
    hash, and the comparison callback accepts the node. *)
Definition node_matches (hash : Z) (query : FTC_CMapQueryRec)
    (hn : Z * FTC_CMapNodeRec) : Prop :=
  hn.1 = hash /\ (ftc_cmap_node_compare hn.2 query (Some false)).1 = true.

#[local] Instance node_matches_dec hash query hn : Decision (node_matches hash query hn).
Proof. unfold node_matches. apply _. Defined.

Fixpoint find_node (nodes : list (Z * FTC_CMapNodeRec)) (hash : Z)
    (query : FTC_CMapQueryRec) : option nat :=
  match nodes with
  | [] => None
  | hn :: rest =>
      if decide (node_matches hash query hn) then Some 0%nat
      else S <$> find_node rest hash query
  end.

(** Modelled from the spec: [FTC_Cache_NewNode] of the cache manager,
    which is not part of ftccmap.c: it "invokes CmapCacheNode's
    constructor callback to build a fresh one" and makes the node
    resident; a constructor failure aborts the find-or-insert. *)
Definition FTC_Cache_NewNode (hash : Z) (query : FTC_CMapQueryRec) :
    M (FT_TS_Error * option nat) :=
  fun w =>
    let mem := match w_alloc w with m :: _ => m | [] => None end in
    let w := with_alloc w (tail (w_alloc w)) in
    match ftc_cmap_node_new mem query with
    | (error, Some node) => ((error, Some 0%nat), with_nodes w ((hash, node) :: w_nodes w))
    | (error, None) => ((error, None), w)
    end.

(** Modelled from the spec: the macro [FTC_CACHE_LOOKUP_CMP] of the cache
    manager, which is not part of ftccmap.c: the "find-or-insert"
    operation, which "returns an existing node" accepted by the
    comparison callback or builds a fresh one.  The node pointer is the
    node's position in the cache; no node is evicted. *)
Definition FTC_CACHE_LOOKUP_CMP (hash : Z) (query : FTC_CMapQueryRec) :
    M (FT_TS_Error * option nat) :=
  fun w =>
    match find_node (w_nodes w) hash query with
    | Some p => ((FT_TS_Err_Ok, Some p), w)
    | None => FTC_Cache_NewNode hash query w
    end.

(** [FTC_CMapCache_Lookup].  The result pairs the returned glyph index
    with the world after the call.  [FT_TS_ASSERT], compiled out of
    release builds, is left out; the bounds check after it is kept. *)
Definition FTC_CMapCache_Lookup (cmap_cache : FTC_CMapCache) (fid : FTC_FaceID)
    (cmap_index : Z) (char_code : Z) : M Z :=
  let no_cmap_change := bool_decide (cmap_index < 0) in
  let cmap_index := if no_cmap_change then 0 else cmap_index in
  match cmap_cache with
  | cache_null => ret 0
  | cache_live =>
    let query := {| q_face_id := fid; q_cmap_index := to_uint32 cmap_index;
                    q_char_code := char_code |} in
    let hash := FTC_CMAP_HASH fid (to_uint32 cmap_index) char_code in
    r <~ FTC_CACHE_LOOKUP_CMP hash query ;;
    let '(error, node) := r in
    match bool_decide (error = FT_TS_Err_Ok), node with
    | true, Some p =>
      n <~ deref_node p ;;
      let offset := to_uint32 (char_code - first n) in
      if bool_decide (FTC_CMAP_INDICES_MAX <= offset) then ret 0 else
      let gindex := default 0 (indices n !! Z.to_nat offset) in
      if bool_decide (gindex = FTC_CMAP_UNKNOWN) then
        r <~ FTC_Manager_LookupFace (face_id n) ;;
        let '(error, face) := r in
        match bool_decide (error = FT_TS_Err_Ok), face with
        | true, Some face =>
          f <~ deref_face face ;;
          gindex <~ (if bool_decide (to_uint32 cmap_index < to_uint32 (num_charmaps f))
                     then
                       let old := charmap f in
                       let cmap := default 0 (charmaps f !! Z.to_nat cmap_index) in
                       when (bool_decide (old <> cmap) && negb no_cmap_change)
                            (FT_TS_Set_Charmap face cmap) ;;;
                       gindex <~ FT_TS_Get_Char_Index face char_code ;;
                       when (bool_decide (old <> cmap) && negb no_cmap_change)
                            (FT_TS_Set_Charmap face old) ;;;
                       ret gindex
                     else ret 0) ;;
          store_index p (Z.to_nat offset) (to_uint16 gindex) ;;;
          ret gindex
        | _, _ => ret 0
        end
      else ret gindex
    | _, _ => ret 0
    end
  end.

(** ** Vocabulary of the properties *)

(** The index the lookup keys the cache with: a negative [cmap_index] is
    replaced by 0, then converted to [FT_TS_UInt]. *)
Definition key_index (cmap_index : Z) : Z :=
  to_uint32 (if bool_decide (cmap_index < 0) then 0 else cmap_index).

(** The entry the cache holds for a character code under a key, if a node
    answers for it. *)
Definition cached_in (nodes : list (Z * FTC_CMapNodeRec)) (fid : FTC_FaceID)
    (index : Z) (code : Z) : option Z :=
  p ← find_node nodes (FTC_CMAP_HASH fid index code)
                 {| q_face_id := fid; q_cmap_index := index; q_char_code := code |};
  hn ← nodes !! p;
  indices hn.2 !! Z.to_nat (to_uint32 (code - first hn.2)).

Definition cached (w : World) (fid : FTC_FaceID) (index : Z) (code : Z) : option Z :=
  cached_in (w_nodes w) fid index code.

(** Every resolved entry of [nodes] is an entry of [nodes'], with the
    same value. *)
Definition keeps_resolved (nodes nodes' : list (Z * FTC_CMapNodeRec)) : Prop :=
  forall fid index code v,
    is_uint32 code -> v <> FTC_CMAP_UNKNOWN ->
    cached_in nodes fid index code = Some v ->
    cached_in nodes' fid index code = Some v.

(** The node the constructor builds for a query. *)
Definition fresh_node (query : FTC_CMapQueryRec) : FTC_CMapNodeRec :=
  {| face_id := q_face_id query; cmap_index := q_cmap_index query;
     first := q_char_code query / 128 * 128;
     indices := replicate (Z.to_nat FTC_CMAP_INDICES_MAX) FTC_CMAP_UNKNOWN |}.

(** The entry has not been resolved yet and the lookup will reach it: its
    node is resident with the sentinel in the cell, or no node answers
    and the coming allocation succeeds. *)
Definition pending (w : World) (fid : FTC_FaceID) (index : Z) (code : Z) : Prop :=
  match cached w fid index code with
  | Some v => v = FTC_CMAP_UNKNOWN
  | None => exists raw rest, w_alloc w = Some raw :: rest
  end.

(** What the cache manager and the constructor maintain: every resident
    node has the shape the constructor gives it and is filed under the
    hash of its own bucket, and the allocator hands out whole blocks. *)
Definition entry_ok (hn : Z * FTC_CMapNodeRec) : Prop :=
  node_ok hn.2
  /\ hn.1 = FTC_CMAP_HASH (face_id hn.2) (cmap_index hn.2) (first hn.2).

Definition block_ok (mem : option FTC_CMapNodeRec) : Prop :=
  match mem with
  | Some raw => length (indices raw) = Z.to_nat FTC_CMAP_INDICES_MAX
  | None => True
  end.

Definition cache_ok (w : World) : Prop :=
  Forall entry_ok (w_nodes w) /\ Forall block_ok (w_alloc w).

(** What may happen between two lookups: other lookups, and any change
    of the faces by their other users. *)
Inductive Action :=
| ActLookup (cmap_cache : FTC_CMapCache) (fid : FTC_FaceID) (cmap_index char_code : Z)
| ActSetFaces (fs : gmap FTC_FaceID FT_TS_FaceRec).

Definition action_ok (a : Action) : Prop :=
  match a with
  | ActLookup _ _ cmap_index char_code => is_int32 cmap_index /\ is_uint32 char_code
  | ActSetFaces _ => True
  end.

Definition step (w : World) (a : Action) : World :=
  match a with
  | ActLookup cmap_cache fid cmap_index char_code =>
      (FTC_CMapCache_Lookup cmap_cache fid cmap_index char_code w).2
  | ActSetFaces fs => with_faces w fs
  end.

Definition run (acts : list Action) (w : World) : World := fold_left step acts w.

(** The lookup from the bounds check on, once the node [p] is at hand
    (used to state the intermediate lemmas). *)
Definition lookup_in_node (no_cmap_change : bool) (cmap_index : Z) (char_code : Z)
    (p : nat) : M Z :=
  n <~ deref_node p ;;
  let offset := to_uint32 (char_code - first n) in
  if bool_decide (FTC_CMAP_INDICES_MAX <= offset) then ret 0 else
  let gindex := default 0 (indices n !! Z.to_nat offset) in
  if bool_decide (gindex = FTC_CMAP_UNKNOWN) then
    r <~ FTC_Manager_LookupFace (face_id n) ;;
    let '(error, face) := r in
    match bool_decide (error = FT_TS_Err_Ok), face with
    | true, Some face =>
      f <~ deref_face face ;;
      gindex <~ (if bool_decide (to_uint32 cmap_index < to_uint32 (num_charmaps f))
                 then
                   let old := charmap f in
                   let cmap := default 0 (charmaps f !! Z.to_nat cmap_index) in
                   when (bool_decide (old <> cmap) && negb no_cmap_change)
                        (FT_TS_Set_Charmap face cmap) ;;;
                   gindex <~ FT_TS_Get_Char_Index face char_code ;;
                   when (bool_decide (old <> cmap) && negb no_cmap_change)
                        (FT_TS_Set_Charmap face old) ;;;
                   ret gindex
                 else ret 0) ;;
      store_index p (Z.to_nat offset) (to_uint16 gindex) ;;;
      ret gindex
    | _, _ => ret 0
    end
  else ret gindex.

(** The glyph index a resolution returns and the calls it makes to the
    font service after the face is resolved, read off the face record. *)
Definition resolution (no_cmap_change : bool) (cmap_index : Z) (face : FT_TS_Face)
    (f : FT_TS_FaceRec) (char_code : Z) : Z * list Event :=
  if bool_decide (to_uint32 cmap_index < to_uint32 (num_charmaps f)) then
    let old := charmap f in
    let cmap := default 0 (charmaps f !! Z.to_nat cmap_index) in
    if bool_decide (old <> cmap) && negb no_cmap_change
    then (to_uint32 (glyph_of f cmap char_code),
          [EvSetCharmap face cmap; EvGetCharIndex face cmap char_code;
           EvSetCharmap face old])
    else (to_uint32 (glyph_of f old char_code), [EvGetCharIndex face old char_code])
  else (0, []).

(** The keys of the resident nodes: hash, face, charmap index, bucket. *)
Definition node_key (hn : Z * FTC_CMapNodeRec) : Z * FTC_FaceID * Z * Z :=
  (hn.1, face_id hn.2, cmap_index hn.2, first hn.2).

(** What a node answers for: face, charmap index, first code. *)
Definition node_triple (hn : Z * FTC_CMapNodeRec) : FTC_FaceID * Z * Z :=
  (face_id hn.2, cmap_index hn.2, first hn.2).

(** Reduce the projections of the records and pairs, and nothing else. *)
Ltac projs :=
  cbn [fst snd first indices face_id cmap_index q_face_id q_cmap_index q_char_code
       w_nodes w_faces w_alloc w_trace] in *.

(** ** Arithmetic of buckets *)

Lemma unknown_value : FTC_CMAP_UNKNOWN = 65535.
Proof. reflexivity. Qed.

Lemma to_uint32_id z : is_uint32 z -> to_uint32 z = z.
Proof. unfold is_uint32, to_uint32. intros H. apply Z.mod_small. lia. Qed.

Lemma to_uint32_range z : is_uint32 (to_uint32 z).
Proof. unfold is_uint32, to_uint32. apply Z.mod_pos_bound. lia. Qed.

Lemma to_uint16_range z : is_uint16 (to_uint16 z).
Proof. unfold is_uint16, to_uint16. apply Z.mod_pos_bound. lia. Qed.

Lemma to_uint16_id z : is_uint16 z -> to_uint16 z = z.
Proof. unfold is_uint16, to_uint16. intros H. apply Z.mod_small. lia. Qed.

(** The bucket start computed by the constructor, for a 32-bit code. *)
Lemma bucket_start c :
  is_uint32 c ->
  to_uint32 (to_uint32 (c / FTC_CMAP_INDICES_MAX) * FTC_CMAP_INDICES_MAX)
  = c / 128 * 128.
Proof.
  unfold is_uint32, FTC_CMAP_INDICES_MAX. intros Hc.
  assert (0 <= c / 128 <= c) by (split; [apply Z.div_pos; lia | apply Z.div_le_upper_bound; lia]).
  assert (c / 128 * 128 <= c) by (pose proof (Z.mul_div_le c 128); lia).
  rewrite (to_uint32_id (c / 128)) by (unfold is_uint32; lia).
  apply to_uint32_id. unfold is_uint32. lia.
Qed.

Lemma to_uint32_sub_ge c f :
  is_uint32 c -> is_uint32 f -> f <= c -> to_uint32 (c - f) = c - f.
Proof. unfold is_uint32. intros. apply to_uint32_id. unfold is_uint32. lia. Qed.

Lemma to_uint32_sub_lt c f :
  is_uint32 c -> is_uint32 f -> c < f -> to_uint32 (c - f) = c - f + 2 ^ 32.
Proof.
  unfold is_uint32, to_uint32. intros.
  symmetry. apply (Z.mod_unique_pos _ _ (-1)); lia.
Qed.

(** A 32-bit multiple of 128 leaves room for its whole bucket. *)
Lemma aligned_room f :
  is_uint32 f -> f mod FTC_CMAP_INDICES_MAX = 0 -> f + 128 <= 2 ^ 32.
Proof.
  unfold is_uint32, FTC_CMAP_INDICES_MAX. intros Hf Hm.
  pose proof (Z.div_mod f 128 ltac:(lia)) as E. rewrite Hm in E.
  assert (f / 128 < 2 ^ 25) by (apply Z.div_lt_upper_bound; lia).
  lia.
Qed.

(** For a node of the constructor's shape the wrapped offset is below 128
    exactly on the node's own bucket. *)
Lemma offset_in_bucket c f :
  is_uint32 c -> is_uint32 f -> f mod FTC_CMAP_INDICES_MAX = 0 ->
  to_uint32 (c - f) < FTC_CMAP_INDICES_MAX <-> f <= c < f + 128.
Proof.
  intros Hc Hf Hm. pose proof (aligned_room f Hf Hm) as Hr.
  unfold FTC_CMAP_INDICES_MAX in *.
  destruct (Z_lt_le_dec c f) as [Hlt | Hge].
  - rewrite to_uint32_sub_lt by assumption. unfold is_uint32 in *. lia.
  - rewrite to_uint32_sub_ge by assumption. lia.
Qed.

Lemma bucket_of_aligned c f :
  f mod FTC_CMAP_INDICES_MAX = 0 -> f <= c < f + 128 -> c / 128 = f / 128.
Proof.
  unfold FTC_CMAP_INDICES_MAX. intros Hm Hc.
  pose proof (Z.div_mod f 128 ltac:(lia)) as E. rewrite Hm in E.
  symmetry. apply (Z.div_unique c 128 (f / 128) (c - f)); lia.
Qed.

Lemma aligned_of_bucket c f :
  f mod FTC_CMAP_INDICES_MAX = 0 -> c / 128 = f / 128 -> f <= c < f + 128.
Proof.
  unfold FTC_CMAP_INDICES_MAX. intros Hm Hc.
  pose proof (Z.div_mod f 128 ltac:(lia)) as E. rewrite Hm in E.
  pose proof (Z.div_mod c 128 ltac:(lia)) as E'.
  pose proof (Z.mod_pos_bound c 128 ltac:(lia)). lia.
Qed.

(** ** The node callbacks *)

Lemma fill_unknown_length count nn ind :
  length (fill_unknown count nn ind) = length ind.
Proof.
  revert nn ind. induction count as [|count IH]; intros nn ind; simpl; [done|].
  rewrite IH. apply length_insert.
Qed.

(** After [count] rounds from [nn], the cells [nn .. nn + count - 1] hold
    the sentinel and the others are as before. *)
Lemma fill_unknown_lookup count nn ind i :
  fill_unknown count nn ind !! i
  = if bool_decide (nn <= i < nn + count)%nat
    then (fun _ => FTC_CMAP_UNKNOWN) <$> ind !! i
    else ind !! i.
Proof.
  revert nn ind. induction count as [|count IH]; intros nn ind; simpl.
  - rewrite bool_decide_eq_false_2 by lia. done.
  - rewrite IH. destruct (decide (i = nn)) as [->|Hne].
    + rewrite bool_decide_eq_false_2 by lia.
      rewrite bool_decide_eq_true_2 by lia.
      destruct (decide (nn < length ind)%nat) as [Hlt|Hge].
      * rewrite list_lookup_insert_eq by done.
        destruct (lookup_lt_is_Some_2 ind nn Hlt) as [x ->]. done.
      * rewrite list_insert_ge by lia. rewrite lookup_ge_None_2 by lia. done.
    + rewrite list_lookup_insert_ne by done.
      repeat case_bool_decide; try lia; done.
Qed.

Lemma fill_unknown_all ind :
  length ind = Z.to_nat FTC_CMAP_INDICES_MAX ->
  fill_unknown (Z.to_nat FTC_CMAP_INDICES_MAX) 0 ind
  = replicate (Z.to_nat FTC_CMAP_INDICES_MAX) FTC_CMAP_UNKNOWN.
Proof.
  intros Hlen. apply list_eq. intros i.
  rewrite fill_unknown_lookup.
  destruct (decide (i < Z.to_nat FTC_CMAP_INDICES_MAX)%nat) as [Hlt|Hge].
  - rewrite bool_decide_eq_true_2 by lia.
    rewrite lookup_replicate_2 by done.
    destruct (lookup_lt_is_Some_2 ind i) as [x ->]; [lia|done].
  - rewrite bool_decide_eq_false_2 by lia.
    rewrite lookup_ge_None_2 by lia.
    symmetry. apply lookup_replicate_None. lia.
Qed.

Lemma compare_true node query lc :
  (ftc_cmap_node_compare node query lc).1 = true
  <-> face_id node = q_face_id query
      /\ cmap_index node = q_cmap_index query
      /\ to_uint32 (q_char_code query - first node) < FTC_CMAP_INDICES_MAX.
Proof.
  unfold ftc_cmap_node_compare.
  destruct (bool_decide (face_id node = q_face_id query)) eqn:Ef;
    destruct (bool_decide (cmap_index node = q_cmap_index query)) eqn:Ec; simpl;
    try apply bool_decide_eq_true in Ef; try apply bool_decide_eq_false in Ef;
    try apply bool_decide_eq_true in Ec; try apply bool_decide_eq_false in Ec;
    rewrite ?bool_decide_eq_true; intuition congruence.
Qed.

Lemma new_node_ok raw query :
  is_uint32 (q_char_code query) ->
  length (indices raw) = Z.to_nat FTC_CMAP_INDICES_MAX ->
  exists node,
    ftc_cmap_node_new (Some raw) query = (FT_TS_Err_Ok, Some node)
    /\ node_ok node
    /\ face_id node = q_face_id query
    /\ cmap_index node = q_cmap_index query
    /\ first node = q_char_code query / 128 * 128
    /\ indices node = replicate (Z.to_nat FTC_CMAP_INDICES_MAX) FTC_CMAP_UNKNOWN.
Proof.
  intros Hc Hlen. eexists. split; [reflexivity|].
  unfold node_ok. cbn [first indices face_id cmap_index].
  rewrite bucket_start by done. rewrite fill_unknown_all by done.
  assert (Hm : (q_char_code query / 128 * 128) mod FTC_CMAP_INDICES_MAX = 0).
  { apply Z.mod_mul. unfold FTC_CMAP_INDICES_MAX. lia. }
  split_and!; try done.
  - unfold is_uint32 in *. pose proof (Z.mul_div_le (q_char_code query) 128).
    assert (0 <= q_char_code query / 128) by (apply Z.div_pos; lia). lia.
  - apply Forall_replicate. rewrite unknown_value. unfold is_uint16. lia.
Qed.

(** ** Finding a node *)

Lemma node_matches_key hash query hn hn' :
  node_key hn = node_key hn' -> node_matches hash query hn -> node_matches hash query hn'.
Proof.
  unfold node_key, node_matches. intros Hk [Hh Hc].
  injection Hk as Hk1 Hk2 Hk3 Hk4.
  apply compare_true in Hc. rewrite compare_true. rewrite <- Hk1, <- Hk2, <- Hk3, <- Hk4.
  done.
Qed.

Lemma find_node_keys nodes nodes' hash query :
  node_key <$> nodes = node_key <$> nodes' ->
  find_node nodes hash query = find_node nodes' hash query.
Proof.
  revert nodes'. induction nodes as [|hn nodes IH]; intros [|hn' nodes'] E; try done.
  rewrite !fmap_cons in E. apply (inj2 cons) in E as [Hk E].
  simpl. rewrite (IH nodes' E).
  destruct (decide (node_matches hash query hn)) as [Hm|Hm];
    destruct (decide (node_matches hash query hn')) as [Hm'|Hm']; try done.
  - destruct Hm'. by apply (node_matches_key _ _ hn).
  - destruct Hm. by apply (node_matches_key _ _ hn').
Qed.

Lemma find_node_Some nodes hash query p :
  find_node nodes hash query = Some p ->
  exists hn, nodes !! p = Some hn /\ node_matches hash query hn.
Proof.
  revert p. induction nodes as [|hn nodes IH]; intros p; simpl; [done|].
  destruct (decide (node_matches hash query hn)) as [Hm|Hm].
  - intros [= <-]. by exists hn.
  - destruct (find_node nodes hash query) as [p'|] eqn:E; simpl; [|done].
    intros [= <-]. by apply IH.
Qed.

Lemma find_node_None nodes hash query hn :
  find_node nodes hash query = None -> hn ∈ nodes -> ~ node_matches hash query hn.
Proof.
  induction nodes as [|hn' nodes IH]; simpl; intros E Hin; [by apply elem_of_nil in Hin|].
  destruct (decide (node_matches hash query hn')) as [Hm|Hm]; [done|].
  destruct (find_node nodes hash query) eqn:E'; [done|].
  apply elem_of_cons in Hin as [->|Hin]; [done|by apply IH].
Qed.

Lemma set_node_index_key off v hn : node_key (set_node_index off v hn) = node_key hn.
Proof. done. Qed.

Lemma alter_keys off v p (nodes : list (Z * FTC_CMapNodeRec)) :
  node_key <$> alter (set_node_index off v) p nodes = node_key <$> nodes.
Proof.
  revert p. induction nodes as [|hn nodes IH]; intros [|p]; simpl; try done.
  f_equal. apply IH.
Qed.

(** A node of the constructor's shape answers a 32-bit code exactly when
    the code lies in the node's bucket, and then the hash the node is
    filed under is the hash of the query. *)
Lemma matches_bucket fid index code hn :
  entry_ok hn -> is_uint32 code ->
  node_matches (FTC_CMAP_HASH fid index code)
               {| q_face_id := fid; q_cmap_index := index; q_char_code := code |} hn
  <-> face_id hn.2 = fid /\ cmap_index hn.2 = index /\ code / 128 = first hn.2 / 128.
Proof.
  intros [(Hf & Hm & _) Hh] Hc. unfold node_matches. rewrite compare_true. simpl.
  rewrite (offset_in_bucket _ _ Hc Hf Hm). split.
  - intros (_ & <- & <- & Hb). split_and!; try done. by apply bucket_of_aligned.
  - intros (<- & <- & Hb). apply (aligned_of_bucket _ _ Hm) in Hb.
    split_and!; try lia; try done. rewrite Hh. unfold FTC_CMAP_HASH.
    change FTC_CMAP_INDICES_MAX with 128.
    by rewrite (bucket_of_aligned _ _ Hm Hb).
Qed.

(** ** The lookup, path by path *)

Lemma lookup_null fid ci code w :
  FTC_CMapCache_Lookup cache_null fid ci code w = (0, w).
Proof. done. Qed.

Lemma lookup_unfold fid ci code w :
  FTC_CMapCache_Lookup cache_live fid ci code w
  = let ncc := bool_decide (ci < 0) in
    let idx := if ncc then 0 else ci in
    let r := FTC_CACHE_LOOKUP_CMP (FTC_CMAP_HASH fid (to_uint32 idx) code)
               {| q_face_id := fid; q_cmap_index := to_uint32 idx; q_char_code := code |} w in
    match bool_decide (r.1.1 = FT_TS_Err_Ok), r.1.2 with
    | true, Some p => lookup_in_node ncc idx code p r.2
    | _, _ => (0, r.2)
    end.
Proof.
  unfold FTC_CMapCache_Lookup, bind. cbv zeta.
  destruct (FTC_CACHE_LOOKUP_CMP _ _ w) as [[err [p|]] w1]; simpl;
    destruct (bool_decide (err = FT_TS_Err_Ok)); done.
Qed.

Lemma set_face_charmap_back f c :
  set_face_charmap (charmap f) (set_face_charmap c f) = f.
Proof. by destruct f. Qed.

(** Setting a charmap and then the former one leaves the store of faces
    as it was. *)
Lemma alter_charmap_back (fs : gmap FTC_FaceID FT_TS_FaceRec) face f c :
  fs !! face = Some f ->
  alter (set_face_charmap (charmap f)) face (alter (set_face_charmap c) face fs) = fs.
Proof.
  intros Hf. apply map_eq. intros i. destruct (decide (i = face)) as [->|Hne].
  - rewrite !lookup_alter_eq, Hf. simpl. by rewrite set_face_charmap_back.
  - by rewrite !lookup_alter_ne.
Qed.

Section InNode.
Variables (ncc : bool) (ci code : Z) (p : nat) (w : World) (hn : Z * FTC_CMapNodeRec).
Hypothesis Hp : w_nodes w !! p = Some hn.
Hypothesis Hoff : to_uint32 (code - first hn.2) < FTC_CMAP_INDICES_MAX.

Lemma lookup_in_node_hit v :
  indices hn.2 !! Z.to_nat (to_uint32 (code - first hn.2)) = Some v ->
  v <> FTC_CMAP_UNKNOWN ->
  lookup_in_node ncc ci code p w = (v, w).
Proof.
  intros Hv Hne. unfold lookup_in_node, bind, deref_node, ret. rewrite Hp. simpl.
  rewrite bool_decide_eq_false_2 by lia. rewrite Hv. simpl.
  by rewrite bool_decide_eq_false_2.
Qed.

Lemma lookup_in_node_noface :
  indices hn.2 !! Z.to_nat (to_uint32 (code - first hn.2)) = Some FTC_CMAP_UNKNOWN ->
  w_faces w !! face_id hn.2 = None ->
  lookup_in_node ncc ci code p w = (0, emit (EvLookupFace (face_id hn.2)) w).
Proof.
  intros Hv Hf. unfold lookup_in_node, bind, deref_node, ret. rewrite Hp. simpl.
  rewrite bool_decide_eq_false_2 by lia. rewrite Hv. simpl.
  rewrite ?bool_decide_eq_true_2 by done.
  unfold FTC_Manager_LookupFace. by rewrite Hf.
Qed.

Lemma lookup_in_node_resolve f :
  indices hn.2 !! Z.to_nat (to_uint32 (code - first hn.2)) = Some FTC_CMAP_UNKNOWN ->
  w_faces w !! face_id hn.2 = Some f ->
  lookup_in_node ncc ci code p w
  = let r := resolution ncc ci (face_id hn.2) f code in
    (r.1, mkWorld (alter (set_node_index (Z.to_nat (to_uint32 (code - first hn.2)))
                                         (to_uint16 r.1)) p (w_nodes w))
                  (w_faces w) (w_alloc w)
                  (w_trace w ++ EvLookupFace (face_id hn.2) :: r.2)).
Proof.
  intros Hv Hf. unfold lookup_in_node, bind, deref_node, ret. rewrite Hp. simpl.
  rewrite bool_decide_eq_false_2 by lia. rewrite Hv. simpl.
  rewrite ?bool_decide_eq_true_2 by done.
  unfold FTC_Manager_LookupFace. rewrite Hf. simpl.
  rewrite !Hf. simpl.
  unfold resolution.
  destruct (bool_decide (to_uint32 ci < to_uint32 (num_charmaps f))); simpl.
  - destruct (bool_decide (charmap f <> default 0 (charmaps f !! Z.to_nat ci)) && negb ncc)
      eqn:Esw; simpl.
    + unfold FT_TS_Set_Charmap, FT_TS_Get_Char_Index, store_index, with_nodes,
        with_faces, emit. simpl.
      rewrite lookup_alter_eq, Hf. simpl.
      rewrite (alter_charmap_back _ _ _ _ Hf).
      by rewrite <- !app_assoc.
    + unfold FT_TS_Get_Char_Index, store_index, with_nodes, emit. simpl.
      rewrite Hf. simpl. by rewrite <- !app_assoc.
  - unfold store_index, with_nodes, emit. simpl. done.
Qed.

End InNode.

(** ** Find-or-insert *)

Lemma new_node_fresh raw query :
  is_uint32 (q_char_code query) -> block_ok (Some raw) ->
  ftc_cmap_node_new (Some raw) query = (FT_TS_Err_Ok, Some (fresh_node query)).
Proof.
  intros Hc Hb. unfold ftc_cmap_node_new, fresh_node.
  rewrite bucket_start by done. by rewrite fill_unknown_all.
Qed.

Lemma fresh_node_ok fid index code :
  is_uint32 code ->
  entry_ok (FTC_CMAP_HASH fid index code,
            fresh_node {| q_face_id := fid; q_cmap_index := index; q_char_code := code |}).
Proof.
  intros Hc. unfold entry_ok, node_ok, fresh_node. projs.
  assert (Hm : (code / 128 * 128) mod FTC_CMAP_INDICES_MAX = 0).
  { apply Z.mod_mul. unfold FTC_CMAP_INDICES_MAX. lia. }
  assert (Hr : is_uint32 (code / 128 * 128)).
  { unfold is_uint32 in *. pose proof (Z.mul_div_le code 128).
    assert (0 <= code / 128) by (apply Z.div_pos; lia). lia. }
  split_and!; try done.
  - apply Forall_replicate. rewrite unknown_value. unfold is_uint16. lia.
  - unfold FTC_CMAP_HASH. change FTC_CMAP_INDICES_MAX with 128.
    by rewrite Z.div_mul by lia.
Qed.

Lemma cmp_found hash query w p :
  find_node (w_nodes w) hash query = Some p ->
  FTC_CACHE_LOOKUP_CMP hash query w = ((FT_TS_Err_Ok, Some p), w).
Proof. intros E. unfold FTC_CACHE_LOOKUP_CMP. by rewrite E. Qed.

Lemma cmp_new hash query w raw rest :
  is_uint32 (q_char_code query) -> block_ok (Some raw) ->
  find_node (w_nodes w) hash query = None ->
  w_alloc w = Some raw :: rest ->
  FTC_CACHE_LOOKUP_CMP hash query w
  = ((FT_TS_Err_Ok, Some 0%nat),
     mkWorld ((hash, fresh_node query) :: w_nodes w) (w_faces w) rest (w_trace w)).
Proof.
  intros Hc Hb E Ha. unfold FTC_CACHE_LOOKUP_CMP, FTC_Cache_NewNode. rewrite E, Ha.
  by rewrite new_node_fresh.
Qed.

Lemma cmp_fail hash query w :
  find_node (w_nodes w) hash query = None ->
  (forall raw rest, w_alloc w <> Some raw :: rest) ->
  FTC_CACHE_LOOKUP_CMP hash query w
  = ((FT_TS_Err_Out_Of_Memory, None), with_alloc w (tail (w_alloc w))).
Proof.
  intros E Ha. unfold FTC_CACHE_LOOKUP_CMP, FTC_Cache_NewNode. rewrite E.
  destruct (w_alloc w) as [|[raw|] rest]; try done. by destruct (Ha raw rest).
Qed.

(** The find-or-insert leaves the keys of the cache as they are or puts
    the key of the query's bucket in front. *)
Lemma cmp_keys fid index code w :
  cache_ok w -> is_uint32 code ->
  let w1 := (FTC_CACHE_LOOKUP_CMP (FTC_CMAP_HASH fid index code)
               {| q_face_id := fid; q_cmap_index := index; q_char_code := code |} w).2 in
  node_key <$> w_nodes w1 = node_key <$> w_nodes w
  \/ node_key <$> w_nodes w1
     = (FTC_CMAP_HASH fid index code, fid, index, code / 128 * 128)
       :: (node_key <$> w_nodes w).
Proof.
  intros [_ Hblocks] Hc.
  destruct (find_node (w_nodes w) (FTC_CMAP_HASH fid index code)
              {| q_face_id := fid; q_cmap_index := index; q_char_code := code |})
    as [p|] eqn:E.
  - rewrite (cmp_found _ _ _ _ E). by left.
  - destruct (w_alloc w) as [|[raw|] rest] eqn:Ha.
    + rewrite cmp_fail by (done || by rewrite Ha). by left.
    + rewrite (cmp_new _ _ _ raw rest); try done; [by right|].
      by apply Forall_cons in Hblocks as [? _].
    + rewrite cmp_fail by (done || by rewrite Ha). by left.
Qed.

(** ** Resolved entries stay *)

Lemma entry_ok_in nodes p hn :
  Forall entry_ok nodes -> nodes !! p = Some hn -> entry_ok hn.
Proof. intros Hall Hp. by apply (Forall_lookup_1 _ _ _ _ Hall Hp). Qed.

(** What finding a node for a typed query gives under the invariant. *)
Lemma found_node nodes fid index code p :
  Forall entry_ok nodes -> is_uint32 code ->
  find_node nodes (FTC_CMAP_HASH fid index code)
            {| q_face_id := fid; q_cmap_index := index; q_char_code := code |} = Some p ->
  exists hn, nodes !! p = Some hn /\ entry_ok hn
    /\ face_id hn.2 = fid /\ cmap_index hn.2 = index
    /\ code / 128 = first hn.2 / 128
    /\ to_uint32 (code - first hn.2) < FTC_CMAP_INDICES_MAX
    /\ (Z.to_nat (to_uint32 (code - first hn.2)) < length (indices hn.2))%nat.
Proof.
  intros Hall Hc E. destruct (find_node_Some _ _ _ _ E) as (hn & Hp & Hm).
  pose proof (entry_ok_in _ _ _ Hall Hp) as Hok.
  pose proof Hm as Hm'. apply (matches_bucket _ _ _ _ Hok Hc) in Hm' as (Hf & Hi & Hb).
  destruct Hm as [_ Hcmp]. apply compare_true in Hcmp as (_ & _ & Hoff).
  projs. pose proof Hok as [(Hr & Hmod & Hlen & Hall16) Hh].
  exists hn. do 6 (split; [done|]).
  rewrite Hlen. pose proof (to_uint32_range (code - first hn.2)) as [? ?].
  unfold FTC_CMAP_INDICES_MAX in *. lia.
Qed.

Lemma cached_in_Some nodes fid index code v :
  Forall entry_ok nodes -> is_uint32 code ->
  cached_in nodes fid index code = Some v ->
  exists p hn,
    find_node nodes (FTC_CMAP_HASH fid index code)
      {| q_face_id := fid; q_cmap_index := index; q_char_code := code |} = Some p
    /\ nodes !! p = Some hn
    /\ indices hn.2 !! Z.to_nat (to_uint32 (code - first hn.2)) = Some v.
Proof.
  intros Hall Hc. unfold cached_in.
  destruct (find_node _ _ _) as [p|] eqn:E; simpl; [|done].
  destruct (nodes !! p) as [hn|] eqn:Hp; simpl; [|done].
  intros Hv. by exists p, hn.
Qed.

Lemma cached_in_None nodes fid index code :
  Forall entry_ok nodes -> is_uint32 code ->
  cached_in nodes fid index code = None ->
  find_node nodes (FTC_CMAP_HASH fid index code)
    {| q_face_id := fid; q_cmap_index := index; q_char_code := code |} = None.
Proof.
  intros Hall Hc. unfold cached_in.
  destruct (find_node _ _ _) as [p|] eqn:E; simpl; [|done].
  destruct (found_node _ _ _ _ _ Hall Hc E) as (hn & Hp & _ & _ & _ & _ & _ & Hlen).
  rewrite Hp. simpl. intros Hn. apply lookup_ge_None in Hn. lia.
Qed.

(** Filling a cell that held the sentinel keeps every resolved entry. *)
Lemma keeps_resolved_store nodes p hn off v :
  nodes !! p = Some hn ->
  indices hn.2 !! off = Some FTC_CMAP_UNKNOWN ->
  keeps_resolved nodes (alter (set_node_index off v) p nodes).
Proof.
  intros Hp Hu fid index code v' Hc Hne. unfold cached_in.
  rewrite (find_node_keys (alter (set_node_index off v) p nodes) nodes)
    by apply alter_keys.
  destruct (find_node nodes _ _) as [p0|]; simpl; [|done].
  destruct (decide (p0 = p)) as [->|Hpp].
  - rewrite list_lookup_alter_eq, Hp. simpl.
    destruct (decide (Z.to_nat (to_uint32 (code - first hn.2)) = off)) as [<-|Hoff].
    + rewrite Hu. congruence.
    + by rewrite list_lookup_insert_ne.
  - by rewrite list_lookup_alter_ne.
Qed.

(** Adding the node built on a miss keeps every resolved entry. *)
Lemma keeps_resolved_new nodes fid index code :
  Forall entry_ok nodes -> is_uint32 code ->
  find_node nodes (FTC_CMAP_HASH fid index code)
    {| q_face_id := fid; q_cmap_index := index; q_char_code := code |} = None ->
  keeps_resolved nodes
    ((FTC_CMAP_HASH fid index code,
      fresh_node {| q_face_id := fid; q_cmap_index := index; q_char_code := code |}) :: nodes).
Proof.
  intros Hall Hc Hmiss fid' index' code' v Hc' Hne Hv.
  destruct (cached_in_Some _ _ _ _ _ Hall Hc' Hv) as (p0 & hn0 & E0 & Hp0 & Hv0).
  destruct (found_node _ _ _ _ _ Hall Hc' E0) as (hn & Hp & Hok & Hf & Hi & Hb & _).
  assert (hn = hn0) as -> by congruence.
  unfold cached_in. simpl.
  destruct (decide (node_matches _ _ _)) as [Hm|Hm].
  - exfalso. apply (matches_bucket _ _ _ _ (fresh_node_ok fid index code Hc) Hc') in Hm.
    simpl in Hm. destruct Hm as (-> & -> & Hb').
    rewrite Z.div_mul in Hb' by lia.
    apply (find_node_None _ _ _ hn0 Hmiss); [by eapply list_elem_of_lookup_2|].
    apply (matches_bucket _ _ _ _ Hok Hc). split_and!; try done. congruence.
  - rewrite E0. simpl. rewrite Hp0. simpl. done.
Qed.

Lemma keeps_resolved_refl nodes : keeps_resolved nodes nodes.
Proof. by intros fid index code v _ _ H. Qed.

Lemma keeps_resolved_trans n1 n2 n3 :
  keeps_resolved n1 n2 -> keeps_resolved n2 n3 -> keeps_resolved n1 n3.
Proof. intros H12 H23 fid index code v Hc Hne Hv. by apply H23, H12. Qed.

Lemma entry_ok_store off v hn :
  entry_ok hn -> entry_ok (set_node_index off (to_uint16 v) hn).
Proof.
  intros [(Hr & Hm & Hlen & H16) Hh]. split; [|done].
  split_and!; simpl; try done.
  - by rewrite length_insert.
  - apply Forall_insert; [done|apply to_uint16_range].
Qed.

Lemma entries_ok_store nodes p off v :
  Forall entry_ok nodes ->
  Forall entry_ok (alter (set_node_index off (to_uint16 v)) p nodes).
Proof.
  intros Hall. apply Forall_alter; [done|]. intros hn _ Hok. by apply entry_ok_store.
Qed.

(** ** The lookup as a whole *)

Lemma key_index_nonneg ci : is_int32 ci -> 0 <= ci -> key_index ci = ci.
Proof.
  unfold key_index, is_int32. intros Hr Hc. rewrite bool_decide_eq_false_2 by lia.
  apply to_uint32_id. unfold is_uint32. lia.
Qed.

Lemma key_index_neg ci : ci < 0 -> key_index ci = 0.
Proof. unfold key_index. intros Hc. by rewrite bool_decide_eq_true_2. Qed.

Lemma cache_ok_nodes w : cache_ok w -> Forall entry_ok (w_nodes w).
Proof. by intros [? _]. Qed.

(** A resolved entry is returned as it is, and the world is untouched. *)
Lemma lookup_hit fid ci code w v :
  Forall entry_ok (w_nodes w) -> is_uint32 code ->
  cached w fid (key_index ci) code = Some v -> v <> FTC_CMAP_UNKNOWN ->
  FTC_CMapCache_Lookup cache_live fid ci code w = (v, w).
Proof.
  intros Hall Hc Hv Hne.
  destruct (cached_in_Some _ _ _ _ _ Hall Hc Hv) as (p & hn & E & Hp & Hv').
  destruct (found_node _ _ _ _ _ Hall Hc E) as (hn' & Hp' & _ & _ & _ & _ & Hoff & _).
  assert (hn' = hn) as -> by congruence.
  rewrite lookup_unfold. cbv zeta. fold (key_index ci).
  rewrite (cmp_found _ _ _ _ E). cbn [fst snd].
  rewrite bool_decide_eq_true_2 by done.
  by apply (lookup_in_node_hit _ _ _ _ _ hn).
Qed.

(** A pending entry: the find-or-insert yields a node whose cell for the
    code holds the sentinel. *)
Lemma pending_located fid index code w :
  cache_ok w -> is_uint32 code -> pending w fid index code ->
  exists p w1 hn,
    FTC_CACHE_LOOKUP_CMP (FTC_CMAP_HASH fid index code)
      {| q_face_id := fid; q_cmap_index := index; q_char_code := code |} w
    = ((FT_TS_Err_Ok, Some p), w1)
    /\ find_node (w_nodes w1) (FTC_CMAP_HASH fid index code)
         {| q_face_id := fid; q_cmap_index := index; q_char_code := code |} = Some p
    /\ w_nodes w1 !! p = Some hn
    /\ face_id hn.2 = fid
    /\ to_uint32 (code - first hn.2) < FTC_CMAP_INDICES_MAX
    /\ (Z.to_nat (to_uint32 (code - first hn.2)) < length (indices hn.2))%nat
    /\ indices hn.2 !! Z.to_nat (to_uint32 (code - first hn.2)) = Some FTC_CMAP_UNKNOWN
    /\ w_faces w1 = w_faces w /\ w_trace w1 = w_trace w
    /\ cache_ok w1 /\ keeps_resolved (w_nodes w) (w_nodes w1).
Proof.
  intros [Hall Hblocks] Hc Hpend. unfold pending in Hpend.
  destruct (cached w fid index code) as [v|] eqn:Hv.
  - subst v.
    destruct (cached_in_Some _ _ _ _ _ Hall Hc Hv) as (p & hn & E & Hp & Hv').
    destruct (found_node _ _ _ _ _ Hall Hc E) as (hn' & Hp' & _ & Hf & _ & _ & Hoff & Hlen).
    assert (hn' = hn) as -> by congruence.
    exists p, w, hn. rewrite (cmp_found _ _ _ _ E).
    split_and!; try done. apply keeps_resolved_refl.
  - destruct Hpend as (raw & rest & Ha).
    pose proof (cached_in_None _ _ _ _ Hall Hc Hv) as E.
    assert (Hraw : block_ok (Some raw) /\ Forall block_ok rest).
    { rewrite Ha in Hblocks. by apply Forall_cons in Hblocks. }
    destruct Hraw as [Hraw Hrest].
    pose proof (fresh_node_ok fid index code Hc) as Hfresh.
    eexists 0%nat, _, _. rewrite (cmp_new _ _ _ raw rest) by done.
    split; [reflexivity|]. projs.
    assert (Hself : node_matches (FTC_CMAP_HASH fid index code)
              {| q_face_id := fid; q_cmap_index := index; q_char_code := code |}
              (FTC_CMAP_HASH fid index code,
               fresh_node {| q_face_id := fid; q_cmap_index := index; q_char_code := code |})).
    { apply (matches_bucket _ _ _ _ Hfresh Hc). projs.
      unfold fresh_node. projs. by rewrite Z.div_mul by lia. }
    split; [|split; [reflexivity|]].
    { cbn [find_node]. by rewrite decide_True. }
    destruct Hself as [_ Hcmp]. apply compare_true in Hcmp as (_ & _ & Hoff). projs.
    assert (Hlt : (Z.to_nat (to_uint32 (code - code / 128 * 128))
                   < Z.to_nat FTC_CMAP_INDICES_MAX)%nat).
    { pose proof (to_uint32_range (code - code / 128 * 128)) as [? ?].
      unfold fresh_node in Hoff. projs. unfold FTC_CMAP_INDICES_MAX in *. lia. }
    unfold fresh_node in *. projs.
    split_and!; try done.
    + by apply lookup_replicate_2.
    + split; projs; [by constructor|done].
    + by apply keeps_resolved_new.
Qed.

(** The lookup of a pending entry: it asks for the face; without the
    face it returns 0 and leaves the sentinel; with the face it returns
    the resolved glyph index and stores its low 16 bits. *)
Lemma lookup_pending fid ci code w :
  cache_ok w -> is_uint32 code -> pending w fid (key_index ci) code ->
  exists w1,
    match w_faces w !! fid with
    | None =>
        FTC_CMapCache_Lookup cache_live fid ci code w = (0, w1)
        /\ cached w1 fid (key_index ci) code = Some FTC_CMAP_UNKNOWN
        /\ w_trace w1 = w_trace w ++ [EvLookupFace fid]
    | Some f =>
        let r := resolution (bool_decide (ci < 0))
                   (if bool_decide (ci < 0) then 0 else ci) fid f code in
        FTC_CMapCache_Lookup cache_live fid ci code w = (r.1, w1)
        /\ cached w1 fid (key_index ci) code = Some (to_uint16 r.1)
        /\ w_trace w1 = w_trace w ++ EvLookupFace fid :: r.2
    end
    /\ w_faces w1 = w_faces w /\ cache_ok w1
    /\ keeps_resolved (w_nodes w) (w_nodes w1)
    /\ node_key <$> w_nodes w1
       = node_key <$> w_nodes (FTC_CACHE_LOOKUP_CMP (FTC_CMAP_HASH fid (key_index ci) code)
           {| q_face_id := fid; q_cmap_index := key_index ci; q_char_code := code |} w).2.
Proof.
  intros Hok Hc Hpend.
  destruct (pending_located _ _ _ _ Hok Hc Hpend)
    as (p & w0 & hn & Hcmp & Hfind & Hp & Hfid & Hoff & Hlen & Hu & Hfaces & Htrace
        & Hok0 & Hkeep).
  rewrite lookup_unfold. cbv zeta. fold (key_index ci). rewrite Hcmp. cbn [fst snd].
  rewrite bool_decide_eq_true_2 by done. rewrite <- Hfaces.
  destruct (w_faces w0 !! fid) as [f|] eqn:Hf.
  - rewrite <- Hfid in Hf.
    rewrite (lookup_in_node_resolve _ _ _ _ _ hn Hp Hoff f Hu Hf). cbv zeta.
    rewrite Hfid in *. eexists. split; [split; [reflexivity|split]|]; projs.
    + unfold cached, cached_in. projs.
      rewrite (find_node_keys (alter _ p (w_nodes w0)) (w_nodes w0)) by apply alter_keys.
      rewrite Hfind. simpl. rewrite list_lookup_alter_eq, Hp. simpl.
      by apply list_lookup_insert_eq.
    + by rewrite Htrace.
    + split_and!; try done.
      * destruct Hok0 as [Hall0 Hb0]. split; projs; [|done]. by apply entries_ok_store.
      * eapply keeps_resolved_trans; [exact Hkeep|].
        by eapply (keeps_resolved_store _ _ hn).
      * apply alter_keys.
  - rewrite <- Hfid in Hf.
    rewrite (lookup_in_node_noface _ _ _ _ _ hn Hp Hoff Hu Hf).
    rewrite Hfid in *. eexists. split; [split; [reflexivity|split]|]; projs.
    + unfold cached, cached_in, emit. projs. rewrite Hfind. simpl. rewrite Hp. simpl. done.
    + unfold emit. projs. by rewrite Htrace.
    + unfold emit. projs. split_and!; try done; by destruct Hok0.
Qed.

(** When no node answers and the allocation fails, the lookup returns 0
    and calls nobody. *)
Lemma lookup_no_memory fid ci code w :
  cache_ok w -> is_uint32 code ->
  cached w fid (key_index ci) code = None ->
  (forall raw rest, w_alloc w <> Some raw :: rest) ->
  FTC_CMapCache_Lookup cache_live fid ci code w = (0, with_alloc w (tail (w_alloc w))).
Proof.
  intros [Hall _] Hc Hv Ha. pose proof (cached_in_None _ _ _ _ Hall Hc Hv) as E.
  rewrite lookup_unfold. cbv zeta. fold (key_index ci).
  by rewrite (cmp_fail _ _ _ E Ha).
Qed.

(** The three cases a lookup falls in. *)
Lemma entry_cases w fid index code :
  (exists v, cached w fid index code = Some v /\ v <> FTC_CMAP_UNKNOWN)
  \/ pending w fid index code
  \/ (cached w fid index code = None /\ forall raw rest, w_alloc w <> Some raw :: rest).
Proof.
  unfold pending. destruct (cached w fid index code) as [v|] eqn:Hv.
  - destruct (decide (v = FTC_CMAP_UNKNOWN)) as [->|Hne]; [by right; left|].
    left. by exists v.
  - destruct (w_alloc w) as [|[raw|] rest] eqn:Ha.
    + right; right. done.
    + right; left. by exists raw, rest.
    + right; right. done.
Qed.

(** Every lookup keeps the invariant, the resolved entries and the store
    of faces, and only adds to the trace. *)
Lemma lookup_preserves cmap_cache fid ci code w :
  cache_ok w -> is_uint32 code ->
  let w1 := (FTC_CMapCache_Lookup cmap_cache fid ci code w).2 in
  cache_ok w1 /\ keeps_resolved (w_nodes w) (w_nodes w1)
  /\ w_faces w1 = w_faces w /\ exists evs, w_trace w1 = w_trace w ++ evs.
Proof.
  intros Hok Hc. destruct cmap_cache.
  { rewrite lookup_null. simpl. split_and!; try done; [apply keeps_resolved_refl|].
    exists []. by rewrite app_nil_r. }
  destruct (entry_cases w fid (key_index ci) code) as [(v & Hv & Hne)|[Hpend|[Hv Ha]]].
  - rewrite (lookup_hit _ _ _ _ v) by (done || by apply cache_ok_nodes). simpl.
    split_and!; try done; [apply keeps_resolved_refl|].
    exists []. by rewrite app_nil_r.
  - destruct (lookup_pending _ _ _ _ Hok Hc Hpend)
      as (w1 & Hcase & Hfaces & Hok1 & Hkeep & _).
    destruct (w_faces w !! fid) as [f|].
    + cbv zeta in Hcase. destruct Hcase as (-> & _ & Ht). simpl.
      split_and!; try done. by eexists.
    + destruct Hcase as (-> & _ & Ht). simpl. split_and!; try done. by eexists.
  - rewrite lookup_no_memory by done. simpl. split_and!; try done.
    + destruct Hok as [Hall Hb]. split; projs; [done|].
      unfold with_alloc; projs. destruct (w_alloc w); [done|].
      by apply Forall_cons in Hb as [_ ?].
    + apply keeps_resolved_refl.
    + exists []. by rewrite app_nil_r.
Qed.

(** ** Runs of lookups *)

Lemma cached_uint16 w fid index code v :
  Forall entry_ok (w_nodes w) -> is_uint32 code ->
  cached w fid index code = Some v -> is_uint16 v.
Proof.
  intros Hall Hc Hv.
  destruct (cached_in_Some _ _ _ _ _ Hall Hc Hv) as (p & hn & _ & Hp & Hv').
  destruct (entry_ok_in _ _ _ Hall Hp) as [(_ & _ & _ & H16) _].
  by apply (Forall_lookup_1 _ _ _ _ H16 Hv').
Qed.

Lemma step_preserves a w :
  cache_ok w -> action_ok a ->
  cache_ok (step w a) /\ keeps_resolved (w_nodes w) (w_nodes (step w a)).
Proof.
  intros Hok Ha. destruct a as [cmap_cache fid ci code|fs]; simpl.
  - destruct Ha as [_ Hc].
    by destruct (lookup_preserves cmap_cache fid ci code w Hok Hc) as (? & ? & _).
  - split; [done|apply keeps_resolved_refl].
Qed.

Lemma run_preserves acts w :
  cache_ok w -> Forall action_ok acts ->
  cache_ok (run acts w) /\ keeps_resolved (w_nodes w) (w_nodes (run acts w)).
Proof.
  revert w. induction acts as [|a acts IH]; intros w Hok Hacts; simpl.
  - split; [done|apply keeps_resolved_refl].
  - apply Forall_cons in Hacts as [Ha Hacts].
    destruct (step_preserves a w Hok Ha) as [Hok1 Hk1].
    destruct (IH _ Hok1 Hacts) as [Hok2 Hk2].
    split; [done|]. by eapply keeps_resolved_trans.
Qed.

(** A resolved entry survives every run of lookups and changes of the
    faces, and a lookup after the run returns it without touching the
    world. *)
Lemma resolved_stays fid ci code w v acts :
  cache_ok w -> is_uint32 code -> Forall action_ok acts ->
  cached w fid (key_index ci) code = Some v -> v <> FTC_CMAP_UNKNOWN ->
  cached (run acts w) fid (key_index ci) code = Some v
  /\ FTC_CMapCache_Lookup cache_live fid ci code (run acts w) = (v, run acts w).
Proof.
  intros Hok Hc Hacts Hv Hne.
  destruct (run_preserves acts w Hok Hacts) as [Hok2 Hkeep].
  assert (Hv2 : cached (run acts w) fid (key_index ci) code = Some v)
    by by apply Hkeep.
  split; [done|]. apply lookup_hit; try done. by apply cache_ok_nodes.
Qed.

(** What the first of two lookups leaves in the cell, by cases. *)
Lemma lookup_result_cached fid ci code w v :
  cache_ok w -> is_uint32 code ->
  cached (FTC_CMapCache_Lookup cache_live fid ci code w).2 fid (key_index ci) code = Some v ->
  v <> FTC_CMAP_UNKNOWN ->
  v = to_uint16 (FTC_CMapCache_Lookup cache_live fid ci code w).1.
Proof.
  intros Hok Hc Hv Hne.
  destruct (entry_cases w fid (key_index ci) code) as [(v0 & Hv0 & Hne0)|[Hpend|[Hv0 Ha]]].
  - rewrite (lookup_hit _ _ _ _ v0) in * by (done || by apply cache_ok_nodes).
    simpl in *. assert (v0 = v) as -> by congruence.
    symmetry. apply to_uint16_id. eapply cached_uint16; [by apply cache_ok_nodes|done..].
  - destruct (lookup_pending _ _ _ _ Hok Hc Hpend) as (w1 & Hcase & _).
    destruct (w_faces w !! fid) as [f|].
    + cbv zeta in Hcase. destruct Hcase as (E & Hv1 & _). rewrite E in *. simpl in *.
      congruence.
    + destruct Hcase as (E & Hv1 & _). rewrite E in *. simpl in *. congruence.
  - rewrite lookup_no_memory in Hv by done. simpl in Hv.
    unfold cached, with_alloc in *. projs. congruence.
Qed.

Lemma resolution_uint32 ncc ci face f code : is_uint32 (resolution ncc ci face f code).1.
Proof.
  unfold resolution. repeat case_match; simpl; try apply to_uint32_range.
  all: unfold is_uint32; lia.
Qed.

(** The lookup returns an [FT_TS_UInt]. *)
Lemma lookup_result_uint32 fid ci code w :
  cache_ok w -> is_uint32 code ->
  is_uint32 (FTC_CMapCache_Lookup cache_live fid ci code w).1.
Proof.
  intros Hok Hc.
  destruct (entry_cases w fid (key_index ci) code) as [(v0 & Hv0 & Hne0)|[Hp|[Hv0 Ha]]].
  - rewrite (lookup_hit _ _ _ _ v0) by (done || by apply cache_ok_nodes). simpl.
    assert (is_uint16 v0) as [? ?]
      by (eapply cached_uint16; [by apply cache_ok_nodes|done..]).
    unfold is_uint32. lia.
  - destruct (lookup_pending _ _ _ _ Hok Hc Hp) as (w1 & Hcase & _).
    destruct (w_faces w !! fid) as [f|].
    + cbv zeta in Hcase. destruct Hcase as (E & _). rewrite E. simpl.
      apply resolution_uint32.
    + destruct Hcase as (E & _). rewrite E. simpl. unfold is_uint32. lia.
  - rewrite lookup_no_memory by done. simpl. unfold is_uint32. lia.
Qed.

(** ** The properties of the specification *)

(** C4.  [ftc_cmap_node_compare] accepts a query exactly when the face
    identifiers are equal, the charmap indices are equal and the unsigned
    32-bit difference between the query's code and the node's first code
    is below 128.  For a node of the shape the constructor builds, a code
    below the node's first code wraps to at least [2^32 - first], fails
    the test, and two queries into different buckets are never both
    accepted by the node. *)
Theorem compare_matches_bucket node query list_changed :
  ((ftc_cmap_node_compare node query list_changed).1 = true
   <-> face_id node = q_face_id query
       /\ cmap_index node = q_cmap_index query
       /\ to_uint32 (q_char_code query - first node) < 128)
  /\ (node_ok node -> is_uint32 (q_char_code query) ->
      (q_char_code query < first node ->
       2 ^ 32 - first node <= to_uint32 (q_char_code query - first node)
       /\ 128 <= to_uint32 (q_char_code query - first node)
       /\ (ftc_cmap_node_compare node query list_changed).1 = false)
      /\ forall query' list_changed',
           is_uint32 (q_char_code query') ->
           q_char_code query / 128 <> q_char_code query' / 128 ->
           ~ ((ftc_cmap_node_compare node query list_changed).1 = true
              /\ (ftc_cmap_node_compare node query' list_changed').1 = true)).
Proof.
  split; [apply compare_true|].
  intros (Hr & Hm & _) Hc. split.
  - intros Hlt. pose proof (aligned_room _ Hr Hm) as Hroom.
    rewrite to_uint32_sub_lt by done.
    assert (Hbig : 128 <= q_char_code query - first node + 2 ^ 32)
      by (unfold is_uint32 in *; lia).
    split; [unfold is_uint32 in *; lia|]. split; [done|].
    apply not_true_is_false. rewrite compare_true.
    rewrite to_uint32_sub_lt by done. unfold FTC_CMAP_INDICES_MAX. lia.
  - intros query' lc' Hc' Hdiff [H1 H2].
    apply compare_true in H1 as (_ & _ & H1). apply compare_true in H2 as (_ & _ & H2).
    apply (offset_in_bucket _ _ Hc Hr Hm) in H1.
    apply (offset_in_bucket _ _ Hc' Hr Hm) in H2.
    apply (bucket_of_aligned _ _ Hm) in H1. apply (bucket_of_aligned _ _ Hm) in H2.
    congruence.
Qed.

(** C5.  For a 32-bit character code and a block of 128 cells, the
    constructor succeeds with a node whose first code is
    [(char_code / 128) * 128], a multiple of 128 with
    [0 <= char_code - first < 128], and whose 128 entries all hold the
    sentinel 0xFFFF; a failed allocation yields an error and no node. *)
Theorem node_new_bucket query raw :
  is_uint32 (q_char_code query) ->
  length (indices raw) = 128%nat ->
  (exists node,
     ftc_cmap_node_new (Some raw) query = (FT_TS_Err_Ok, Some node)
     /\ face_id node = q_face_id query
     /\ cmap_index node = q_cmap_index query
     /\ first node = q_char_code query / 128 * 128
     /\ first node mod 128 = 0
     /\ 0 <= q_char_code query - first node < 128
     /\ length (indices node) = 128%nat
     /\ indices node = replicate 128 65535)
  /\ ftc_cmap_node_new None query = (FT_TS_Err_Out_Of_Memory, None).
Proof.
  intros Hc Hlen. split; [|done].
  destruct (new_node_ok raw query Hc Hlen)
    as (node & E & (Hr & Hm & Hl & _) & Hf & Hi & Hfirst & Hind).
  exists node. rewrite Hfirst in *. split_and!; try done.
  - pose proof (Z.mul_div_le (q_char_code query) 128). lia.
  - pose proof (Z.div_mod (q_char_code query) 128 ltac:(lia)).
    pose proof (Z.mod_pos_bound (q_char_code query) 128 ltac:(lia)). lia.
Qed.

(** C8 (as the code has it).  [ftc_cmap_node_weight] returns the size of
    the generic node header [FTC_NodeRec], the same for every node; the
    cmap node record is larger by its own fields, of which the indices
    array alone takes 256 bytes. *)
Theorem node_weight_is_header_size abi node :
  ftc_cmap_node_weight abi node = sizeof_FTC_NodeRec abi
  /\ (forall node', ftc_cmap_node_weight abi node' = ftc_cmap_node_weight abi node)
  /\ (ftc_cmap_node_weight abi node + 260 <= sizeof_FTC_CMapNodeRec abi)%N
  /\ ftc_cmap_node_weight abi node <> sizeof_FTC_CMapNodeRec abi.
Proof.
  unfold ftc_cmap_node_weight, sizeof_FTC_CMapNodeRec.
  change (Z.to_N FTC_CMAP_INDICES_MAX) with 128%N.
  split_and!; try done; lia.
Qed.

(** C1 (amended).  After a lookup that leaves a non-sentinel value [v] in
    the entry, [v] is the low 16 bits of the glyph index that lookup
    returned (the index itself when it is below 0x10000); the entry holds
    [v] after every later run of lookups and changes of the faces, and
    a later lookup with the same arguments returns [v] and leaves the
    world, trace of font-service calls included, as it was. *)
Theorem lookup_idempotent fid ci code w v acts :
  cache_ok w -> is_uint32 code -> Forall action_ok acts ->
  cached (FTC_CMapCache_Lookup cache_live fid ci code w).2 fid (key_index ci) code
    = Some v ->
  v <> FTC_CMAP_UNKNOWN ->
  let r1 := FTC_CMapCache_Lookup cache_live fid ci code w in
  let w2 := run acts r1.2 in
  v = to_uint16 r1.1
  /\ (r1.1 < 2 ^ 16 -> v = r1.1)
  /\ cached w2 fid (key_index ci) code = Some v
  /\ FTC_CMapCache_Lookup cache_live fid ci code w2 = (v, w2).
Proof.
  intros Hok Hc Hacts Hv Hne r1 w2.
  pose proof (lookup_result_cached _ _ _ _ _ Hok Hc Hv Hne) as Hlow. fold r1 in Hlow.
  destruct (lookup_preserves cache_live fid ci code w Hok Hc) as (Hok1 & _ & _ & evs & Ht).
  fold r1 in Hok1, Ht.
  destruct (resolved_stays fid ci code r1.2 v acts Hok1 Hc Hacts Hv Hne) as [Hv2 Hhit].
  split_and!; try done.
  intros Hsmall. rewrite Hlow. apply to_uint16_id.
  destruct (lookup_result_uint32 fid ci code w Hok Hc) as [Hnn _]. fold r1 in Hnn.
  by split.
Qed.

(** C2.  A lookup with a non-negative charmap index that reaches the
    resolution, whose face resolves and whose target charmap [Y] is not
    the active charmap [X] of the face, calls the font service in this
    order: resolve the face, set [Y] active, ask the glyph index (answered
    under [Y]), set [X] active again; the store of faces, and so the
    active charmap of the face, is after the call what it was before. *)
Theorem lookup_restores_charmap fid ci code w f Y :
  cache_ok w -> is_int32 ci -> is_uint32 code -> 0 <= ci ->
  pending w fid ci code ->
  w_faces w !! fid = Some f ->
  is_int32 (num_charmaps f) -> ci < num_charmaps f ->
  charmaps f !! Z.to_nat ci = Some Y -> Y <> charmap f ->
  let r := FTC_CMapCache_Lookup cache_live fid ci code w in
  r.1 = to_uint32 (glyph_of f Y code)
  /\ w_trace r.2 = w_trace w ++ [EvLookupFace fid; EvSetCharmap fid Y;
                                 EvGetCharIndex fid Y code; EvSetCharmap fid (charmap f)]
  /\ w_faces r.2 = w_faces w
  /\ charmap <$> w_faces r.2 !! fid = Some (charmap f).
Proof.
  intros Hok Hci Hc Hnn Hpend Hf Hnum Hlt HY Hne r.
  rewrite <- (key_index_nonneg ci Hci Hnn) in Hpend.
  destruct (lookup_pending _ _ _ _ Hok Hc Hpend) as (w1 & Hcase & Hfaces & _).
  rewrite Hf in Hcase. cbv zeta in Hcase.
  assert (Hres : resolution (bool_decide (ci < 0)) (if bool_decide (ci < 0) then 0 else ci)
                   fid f code
                 = (to_uint32 (glyph_of f Y code),
                    [EvSetCharmap fid Y; EvGetCharIndex fid Y code;
                     EvSetCharmap fid (charmap f)])).
  { unfold resolution. rewrite (bool_decide_eq_false_2 (ci < 0)) by lia.
    rewrite HY. simpl.
    rewrite !to_uint32_id by (unfold is_uint32, is_int32 in *; lia).
    rewrite bool_decide_eq_true_2 by done.
    rewrite bool_decide_eq_true_2 by congruence. done. }
  rewrite Hres in Hcase. destruct Hcase as (E & _ & Ht). subst r. rewrite E. simpl.
  split_and!; try done. by rewrite Hfaces, Hf.
Qed.

Lemma resolution_no_change ci face f code :
  Forall (fun e => is_set_charmap e = false) (resolution true ci face f code).2.
Proof.
  unfold resolution. rewrite andb_false_r.
  destruct (bool_decide _); simpl; by repeat constructor.
Qed.

(** C3.  A lookup with a negative charmap index keys and hashes the cache
    with the index 0: the nodes resident afterwards are those resident
    before, with at most one node in front of them that is filed under
    the hash of (face, 0, code) and carries the charmap index 0, and
    their keys are those the lookup with index 0 leaves.  The lookup makes
    no call that sets the active charmap, and leaves the store of faces,
    and so every active charmap, unchanged. *)
Theorem lookup_no_change_mode cmap_cache fid ci code w :
  cache_ok w -> is_uint32 code -> ci < 0 ->
  let r := FTC_CMapCache_Lookup cmap_cache fid ci code w in
  (node_key <$> w_nodes r.2 = node_key <$> w_nodes w
   \/ node_key <$> w_nodes r.2
      = (FTC_CMAP_HASH fid 0 code, fid, 0, code / 128 * 128) :: (node_key <$> w_nodes w))
  /\ node_key <$> w_nodes r.2
     = node_key <$> w_nodes (FTC_CMapCache_Lookup cmap_cache fid 0 code w).2
  /\ (exists evs, w_trace r.2 = w_trace w ++ evs
                  /\ Forall (fun e => is_set_charmap e = false) evs)
  /\ w_faces r.2 = w_faces w.
Proof.
  intros Hok Hc Hneg r. subst r. destruct cmap_cache.
  { rewrite !lookup_null. simpl. split_and!; try done; [by left|].
    exists []. by rewrite app_nil_r. }
  pose proof (key_index_neg ci Hneg) as Hk.
  assert (Hk0 : key_index 0 = 0) by done.
  destruct (entry_cases w fid 0 code) as [(v & Hv & Hne)|[Hpend|[Hv Ha]]].
  - rewrite (lookup_hit fid ci code w v), (lookup_hit fid 0 code w v);
      rewrite ?Hk, ?Hk0; try done; try by apply cache_ok_nodes.
    simpl. split_and!; try done; [by left|]. exists []. by rewrite app_nil_r.
  - pose proof Hpend as Hpend'. rewrite <- Hk in Hpend. rewrite <- Hk0 in Hpend'.
    destruct (lookup_pending _ _ _ _ Hok Hc Hpend) as (w1 & Hcase & Hfaces & _ & _ & Hkeys).
    destruct (lookup_pending _ _ _ _ Hok Hc Hpend') as (w1' & Hcase' & _ & _ & _ & Hkeys').
    rewrite Hk in Hkeys. rewrite Hk0 in Hkeys'.
    pose proof (cmp_keys fid 0 code w Hok Hc) as Hfront. cbv zeta in Hfront.
    rewrite <- Hkeys in Hfront.
    destruct (w_faces w !! fid) as [f|].
    + cbv zeta in Hcase, Hcase'. destruct Hcase as (E & _ & Ht). destruct Hcase' as (E' & _).
      rewrite E, E'. cbn [fst snd]. split_and!; try done; [congruence|].
      eexists. split; [exact Ht|].
      rewrite (bool_decide_eq_true_2 (ci < 0)) by done.
      constructor; [done|apply resolution_no_change].
    + destruct Hcase as (E & _ & Ht). destruct Hcase' as (E' & _).
      rewrite E, E'. cbn [fst snd]. split_and!; try done; [congruence|].
      eexists. split; [exact Ht|]. by repeat constructor.
  - rewrite (lookup_no_memory fid ci code w), (lookup_no_memory fid 0 code w);
      rewrite ?Hk, ?Hk0; try done.
    simpl. split_and!; try done; [by left|]. exists []. by rewrite app_nil_r.
Qed.

(** C6.  A lookup that reaches the resolution with a (normalized) charmap
    index at or beyond the face's number of charmaps returns 0, stores 0
    in the entry and asks the font service for nothing but the face;
    after any run of lookups and changes of the faces, the same lookup
    returns 0 and leaves the world, trace included, as it was. *)
Theorem lookup_index_out_of_range fid ci code w f acts :
  cache_ok w -> is_int32 ci -> is_uint32 code -> Forall action_ok acts ->
  pending w fid (key_index ci) code ->
  w_faces w !! fid = Some f ->
  0 <= num_charmaps f <= key_index ci ->
  let r1 := FTC_CMapCache_Lookup cache_live fid ci code w in
  let w2 := run acts r1.2 in
  r1.1 = 0
  /\ cached r1.2 fid (key_index ci) code = Some 0
  /\ w_trace r1.2 = w_trace w ++ [EvLookupFace fid]
  /\ FTC_CMapCache_Lookup cache_live fid ci code w2 = (0, w2).
Proof.
  intros Hok Hci Hc Hacts Hpend Hf Hnum r1 w2.
  destruct (lookup_pending _ _ _ _ Hok Hc Hpend) as (w1 & Hcase & _ & Hok1 & _).
  rewrite Hf in Hcase. cbv zeta in Hcase.
  assert (Hres : resolution (bool_decide (ci < 0)) (if bool_decide (ci < 0) then 0 else ci)
                   fid f code = (0, [])).
  { unfold resolution. fold (key_index ci).
    pose proof (to_uint32_range (if bool_decide (ci < 0) then 0 else ci)) as Hr.
    fold (key_index ci) in Hr.
    rewrite (to_uint32_id (num_charmaps f)) by (unfold is_uint32 in *; lia).
    by rewrite bool_decide_eq_false_2 by lia. }
  rewrite Hres in Hcase. destruct Hcase as (E & Hv & Ht). simpl in Hv.
  change (to_uint16 0) with 0 in Hv.
  subst w2 r1. rewrite E. simpl. split_and!; try done.
  by apply (resolved_stays fid ci code w1 0 acts).
Qed.

(** C7.  When the entry is unresolved and the face identifier does not
    resolve, the lookup returns 0 and the entry holds the sentinel
    afterwards; the next lookup with the same arguments asks for the face
    again, and resolves the glyph index if the face is there by then. *)
Theorem lookup_face_failure fid ci code w :
  cache_ok w -> is_uint32 code ->
  pending w fid (key_index ci) code ->
  w_faces w !! fid = None ->
  let r1 := FTC_CMapCache_Lookup cache_live fid ci code w in
  let r2 := FTC_CMapCache_Lookup cache_live fid ci code r1.2 in
  r1.1 = 0
  /\ cached r1.2 fid (key_index ci) code = Some FTC_CMAP_UNKNOWN
  /\ w_trace r1.2 = w_trace w ++ [EvLookupFace fid]
  /\ r2.1 = 0
  /\ w_trace r2.2 = w_trace r1.2 ++ [EvLookupFace fid]
  /\ forall fs f, fs !! fid = Some f ->
       let r3 := FTC_CMapCache_Lookup cache_live fid ci code (with_faces r1.2 fs) in
       r3.1 = (resolution (bool_decide (ci < 0)) (if bool_decide (ci < 0) then 0 else ci)
                 fid f code).1
       /\ w_trace r3.2 = w_trace r1.2 ++ EvLookupFace fid
            :: (resolution (bool_decide (ci < 0)) (if bool_decide (ci < 0) then 0 else ci)
                  fid f code).2.
Proof.
  intros Hok Hc Hpend Hf r1 r2.
  destruct (lookup_pending _ _ _ _ Hok Hc Hpend) as (w1 & Hcase & Hfaces & Hok1 & _).
  rewrite Hf in Hcase. destruct Hcase as (E & Hv & Ht).
  subst r2 r1. rewrite E. cbn [fst snd].
  assert (Hpend1 : pending w1 fid (key_index ci) code) by (unfold pending; by rewrite Hv).
  split_and!; try done.
  - destruct (lookup_pending _ _ _ _ Hok1 Hc Hpend1) as (w2 & Hcase2 & _).
    rewrite Hfaces, Hf in Hcase2. by destruct Hcase2 as (-> & _).
  - destruct (lookup_pending _ _ _ _ Hok1 Hc Hpend1) as (w2 & Hcase2 & _).
    rewrite Hfaces, Hf in Hcase2. destruct Hcase2 as (E2 & _ & Ht2).
    rewrite E2. cbn [fst snd]. exact Ht2.
  - intros fs f Hfs.
    assert (Hok3 : cache_ok (with_faces w1 fs)) by done.
    assert (Hpend3 : pending (with_faces w1 fs) fid (key_index ci) code) by done.
    destruct (lookup_pending _ _ _ _ Hok3 Hc Hpend3) as (w3 & Hcase3 & _).
    change (w_faces (with_faces w1 fs)) with fs in Hcase3.
    rewrite Hfs in Hcase3. cbv zeta in Hcase3.
    destruct Hcase3 as (E3 & _ & Ht3). rewrite E3. cbn [fst snd]. by split.
Qed.

(** While the low 16 bits of the resolved glyph index are the sentinel,
    each lookup leaves the sentinel in the entry: after any number of
    repeated lookups the next one asks the font service again and returns
    the same index. *)
Lemma sentinel_result_never_cached fid ci code w f n :
  cache_ok w -> is_uint32 code ->
  cached w fid (key_index ci) code = Some FTC_CMAP_UNKNOWN ->
  w_faces w !! fid = Some f ->
  let res := resolution (bool_decide (ci < 0)) (if bool_decide (ci < 0) then 0 else ci)
               fid f code in
  res.1 mod 2 ^ 16 = 65535 ->
  let wn := Nat.iter n (fun u => (FTC_CMapCache_Lookup cache_live fid ci code u).2) w in
  cache_ok wn
  /\ cached wn fid (key_index ci) code = Some FTC_CMAP_UNKNOWN
  /\ w_faces wn = w_faces w
  /\ (FTC_CMapCache_Lookup cache_live fid ci code wn).1 = res.1
  /\ w_trace (FTC_CMapCache_Lookup cache_live fid ci code wn).2
     = w_trace wn ++ EvLookupFace fid :: res.2.
Proof.
  intros Hok Hc Hcached Hf res Hsent.
  assert (Hstep : forall u, cache_ok u ->
            cached u fid (key_index ci) code = Some FTC_CMAP_UNKNOWN ->
            w_faces u = w_faces w ->
            let r := FTC_CMapCache_Lookup cache_live fid ci code u in
            cache_ok r.2
            /\ cached r.2 fid (key_index ci) code = Some FTC_CMAP_UNKNOWN
            /\ w_faces r.2 = w_faces w
            /\ r.1 = res.1 /\ w_trace r.2 = w_trace u ++ EvLookupFace fid :: res.2).
  { intros u Hoku Hcu Hfu r.
    assert (Hpu : pending u fid (key_index ci) code) by (unfold pending; by rewrite Hcu).
    destruct (lookup_pending _ _ _ _ Hoku Hc Hpu) as (u1 & Hcase & Hfaces & Hok1 & _).
    rewrite Hfu, Hf in Hcase. cbv zeta in Hcase. fold res in Hcase.
    destruct Hcase as (E & Hv & Ht). subst r. rewrite E. cbn [fst snd].
    split_and!; try done; [|congruence].
    rewrite Hv. unfold to_uint16. by rewrite Hsent. }
  induction n as [|n IH]; simpl.
  - destruct (Hstep w Hok Hcached eq_refl) as (_ & _ & _ & Hg & Ht). by split_and!.
  - destruct IH as (Hokn & Hcn & Hfn & _).
    destruct (Hstep _ Hokn Hcn Hfn) as (Hok' & Hc' & Hf' & _).
    destruct (Hstep _ Hok' Hc' Hf') as (_ & _ & _ & Hg & Ht). by split_and!.
Qed.

(** C9.  The resolving lookup returns the glyph index [g] of the
    resolution as the 32-bit value it is and stores its low 16 bits.  If
    those bits are not the sentinel, every later lookup returns them, and
    differs from the first return when [g >= 0x10000]; if they are the
    sentinel 0xFFFF, the entry still counts as unresolved and every
    further lookup resolves again, with the same calls to the font
    service and the same result. *)
Theorem lookup_stores_low_16_bits fid ci code w f acts n :
  cache_ok w -> is_uint32 code -> Forall action_ok acts ->
  pending w fid (key_index ci) code ->
  w_faces w !! fid = Some f ->
  let res := resolution (bool_decide (ci < 0)) (if bool_decide (ci < 0) then 0 else ci)
               fid f code in
  let r1 := FTC_CMapCache_Lookup cache_live fid ci code w in
  r1.1 = res.1
  /\ cached r1.2 fid (key_index ci) code = Some (res.1 mod 2 ^ 16)
  /\ (res.1 mod 2 ^ 16 <> 65535 ->
      let w2 := run acts r1.2 in
      FTC_CMapCache_Lookup cache_live fid ci code w2 = (res.1 mod 2 ^ 16, w2)
      /\ (2 ^ 16 <= res.1 ->
          (FTC_CMapCache_Lookup cache_live fid ci code w2).1 <> r1.1))
  /\ (res.1 mod 2 ^ 16 = 65535 ->
      let wn := Nat.iter n (fun u => (FTC_CMapCache_Lookup cache_live fid ci code u).2)
                  r1.2 in
      let rn := FTC_CMapCache_Lookup cache_live fid ci code wn in
      cached wn fid (key_index ci) code = Some FTC_CMAP_UNKNOWN
      /\ rn.1 = res.1
      /\ w_trace rn.2 = w_trace wn ++ EvLookupFace fid :: res.2).
Proof.
  intros Hok Hc Hacts Hpend Hf res r1.
  destruct (lookup_pending _ _ _ _ Hok Hc Hpend) as (w1 & Hcase & Hfaces & Hok1 & _).
  rewrite Hf in Hcase. cbv zeta in Hcase. fold res in Hcase.
  destruct Hcase as (E & Hv & Ht). subst r1. rewrite E. cbn [fst snd].
  change (to_uint16 res.1) with (res.1 mod 2 ^ 16) in Hv.
  split_and!; try done.
  - intros Hne.
    destruct (resolved_stays fid ci code w1 _ acts Hok1 Hc Hacts Hv Hne) as [_ Hhit].
    rewrite Hhit. cbn [fst snd]. split; [done|].
    intros Hbig. pose proof (Z.mod_pos_bound res.1 (2 ^ 16) ltac:(lia)). lia.
  - intros Hsent. rewrite Hsent in Hv. rewrite <- Hfaces in Hf.
    destruct (sentinel_result_never_cached fid ci code w1 f n Hok1 Hc Hv Hf Hsent)
      as (_ & Hcn & _ & Hg & Htn).
    by split_and!.
Qed.

(** C10.  With a negative charmap index the glyph index is resolved under
    the charmap that is active on the face at that moment and its low 16
    bits are cached under the key of index 0, where lookups with index 0
    find them afterwards.  Run in a world that differs only in the active
    charmap [X'] of the face, the same lookup caches the glyph index under
    [X'] for the same key. *)
Theorem no_change_mode_caches_active_charmap fid ci code w f X' acts :
  cache_ok w -> is_uint32 code -> Forall action_ok acts -> ci < 0 ->
  pending w fid 0 code ->
  w_faces w !! fid = Some f ->
  0 < to_uint32 (num_charmaps f) ->
  let w' := with_faces w (<[fid := set_face_charmap X' f]> (w_faces w)) in
  let r := FTC_CMapCache_Lookup cache_live fid ci code w in
  let r' := FTC_CMapCache_Lookup cache_live fid ci code w' in
  r.1 = to_uint32 (glyph_of f (charmap f) code)
  /\ cached r.2 fid 0 code = Some (to_uint16 r.1)
  /\ r'.1 = to_uint32 (glyph_of f X' code)
  /\ cached r'.2 fid 0 code = Some (to_uint16 r'.1)
  /\ (to_uint16 r.1 <> FTC_CMAP_UNKNOWN ->
      FTC_CMapCache_Lookup cache_live fid 0 code (run acts r.2)
      = (to_uint16 r.1, run acts r.2))
  /\ (to_uint16 (to_uint32 (glyph_of f (charmap f) code))
      <> to_uint16 (to_uint32 (glyph_of f X' code)) ->
      cached r.2 fid 0 code <> cached r'.2 fid 0 code).
Proof.
  intros Hok Hc Hacts Hneg Hpend Hf Hnum w' r r'.
  pose proof (key_index_neg ci Hneg) as Hk.
  assert (Hres : forall g, 0 < to_uint32 (num_charmaps g) ->
            (resolution (bool_decide (ci < 0)) (if bool_decide (ci < 0) then 0 else ci)
               fid g code).1 = to_uint32 (glyph_of g (charmap g) code)).
  { intros g Hg. unfold resolution. rewrite (bool_decide_eq_true_2 (ci < 0)) by done.
    change (to_uint32 0) with 0. rewrite bool_decide_eq_true_2 by done.
    by rewrite andb_false_r. }
  assert (Hmain : forall u g, cache_ok u -> pending u fid 0 code ->
            w_faces u !! fid = Some g -> 0 < to_uint32 (num_charmaps g) ->
            exists u1, FTC_CMapCache_Lookup cache_live fid ci code u
                       = (to_uint32 (glyph_of g (charmap g) code), u1)
              /\ cached u1 fid 0 code = Some (to_uint16 (to_uint32 (glyph_of g (charmap g) code)))
              /\ cache_ok u1).
  { intros u g Hoku Hpu Hfu Hg. rewrite <- Hk in Hpu.
    destruct (lookup_pending _ _ _ _ Hoku Hc Hpu) as (u1 & Hcase & _ & Hoku1 & _).
    rewrite Hfu in Hcase. cbv zeta in Hcase. rewrite (Hres g Hg), Hk in Hcase.
    destruct Hcase as (E & Hv & _). by exists u1. }
  destruct (Hmain w f Hok Hpend Hf Hnum) as (w1 & E & Hv & Hok1).
  assert (Hf' : w_faces w' !! fid = Some (set_face_charmap X' f)) by apply lookup_insert_eq.
  destruct (Hmain w' (set_face_charmap X' f)) as (w1' & E' & Hv' & _); try done.
  subst r r'. rewrite E, E'. cbn [fst snd]. split_and!; try done.
  - intros Hne. assert (Hk0 : key_index 0 = 0) by done.
    rewrite <- Hk0 in Hv. by apply resolved_stays.
  - intros Hdiff. rewrite Hv, Hv'. cbn [charmap set_face_charmap glyph_of]. congruence.
Qed.

(** ** Further properties of the callbacks *)

(** X1.  The node the constructor builds for a query answers exactly the
    queries of the same face, the same charmap index and the same bucket
    of 128 codes, the building query among them. *)
Theorem new_node_answers_its_bucket query raw :
  is_uint32 (q_char_code query) ->
  length (indices raw) = 128%nat ->
  exists node,
    ftc_cmap_node_new (Some raw) query = (FT_TS_Err_Ok, Some node)
    /\ (forall list_changed, (ftc_cmap_node_compare node query list_changed).1 = true)
    /\ forall query' list_changed,
         is_uint32 (q_char_code query') ->
         ((ftc_cmap_node_compare node query' list_changed).1 = true
          <-> q_face_id query' = q_face_id query
              /\ q_cmap_index query' = q_cmap_index query
              /\ q_char_code query' / 128 = q_char_code query / 128).
Proof.
  intros Hc Hlen.
  destruct (new_node_ok raw query Hc Hlen)
    as (node & E & (Hr & Hm & _) & Hf & Hi & Hfirst & _).
  assert (Hall : forall query' lc, is_uint32 (q_char_code query') ->
            ((ftc_cmap_node_compare node query' lc).1 = true
             <-> q_face_id query' = q_face_id query
                 /\ q_cmap_index query' = q_cmap_index query
                 /\ q_char_code query' / 128 = q_char_code query / 128)).
  { intros query' lc Hc'. rewrite compare_true, Hf, Hi.
    rewrite (offset_in_bucket _ _ Hc' Hr Hm).
    assert (Hb : first node / 128 = q_char_code query / 128)
      by (rewrite Hfirst; apply Z.div_mul; lia).
    split.
    - intros (-> & -> & Hin). split_and!; try done.
      rewrite <- Hb. by apply bucket_of_aligned.
    - intros (-> & -> & Hq). split_and!; try done;
        apply (aligned_of_bucket _ _ Hm); congruence. }
  exists node. split; [done|]. split; [|done].
  intros lc. by apply Hall.
Qed.

(** X2.  Equal under the comparison means equal hash: a query accepted by a
    node of the constructor's shape hashes to the hash of the node's own
    key, so the node is found in the bucket the query's hash selects; and
    the hash is an [FT_TS_Offset]. *)
Theorem accepted_query_has_node_hash node query list_changed :
  node_ok node -> is_uint32 (q_char_code query) ->
  (ftc_cmap_node_compare node query list_changed).1 = true ->
  FTC_CMAP_HASH (q_face_id query) (q_cmap_index query) (q_char_code query)
  = FTC_CMAP_HASH (face_id node) (cmap_index node) (first node)
  /\ 0 <= FTC_CMAP_HASH (q_face_id query) (q_cmap_index query) (q_char_code query) < 2 ^ 64.
Proof.
  intros (Hr & Hm & _) Hc Hcmp. apply compare_true in Hcmp as (Hf & Hi & Hoff).
  apply (offset_in_bucket _ _ Hc Hr Hm) in Hoff.
  apply (bucket_of_aligned _ _ Hm) in Hoff. split.
  - unfold FTC_CMAP_HASH. change FTC_CMAP_INDICES_MAX with 128. by rewrite Hf, Hi, Hoff.
  - unfold FTC_CMAP_HASH, to_offset. apply Z.mod_pos_bound. lia.
Qed.

(** X3.  The invalidation callback selects a node for exactly one face
    identifier, the face of every query the node answers; like the
    comparison callback it clears the list-changed flag when given one
    and reports nothing otherwise. *)
Theorem remove_faceid_selects_answering_nodes node query fid list_changed :
  (ftc_cmap_node_compare node query list_changed).1 = true ->
  ((ftc_cmap_node_remove_faceid node fid list_changed).1 = true
   <-> q_face_id query = fid)
  /\ (ftc_cmap_node_remove_faceid node fid list_changed).2
     = ((fun _ => false) <$> list_changed)
  /\ (ftc_cmap_node_compare node query list_changed).2
     = ((fun _ => false) <$> list_changed).
Proof.
  intros Hcmp. pose proof Hcmp as Hcmp'. apply compare_true in Hcmp' as (Hf & _ & _).
  unfold ftc_cmap_node_remove_faceid, ftc_cmap_node_compare. cbn [fst snd].
  rewrite bool_decide_eq_true, Hf. split; [done|].
  split; [by destruct list_changed|].
  destruct list_changed; by case_match.
Qed.

(** ** Further properties of the lookup *)

Lemma lookup_in_node_faces ncc ci code p w :
  w_faces (lookup_in_node ncc ci code p w).2 = w_faces w.
Proof.
  unfold lookup_in_node, bind, deref_node, ret.
  set (n := default null_node (snd <$> w_nodes w !! p)).
  cbn [fst snd]. case_bool_decide; [done|]. case_bool_decide; [|done].
  unfold FTC_Manager_LookupFace.
  destruct (w_faces w !! face_id n) as [f|] eqn:Hf; [|done].
  rewrite bool_decide_eq_true_2 by done.
  unfold deref_face. cbn [w_faces emit]. rewrite Hf. cbn [default from_option].
  case_bool_decide; [|done].
  unfold when, ret, FT_TS_Set_Charmap, FT_TS_Get_Char_Index, store_index.
  destruct (bool_decide _ && negb ncc); cbn; [|done].
  by apply alter_charmap_back.
Qed.

(** X4.  No lookup changes the store of faces, whatever the handle, the
    index, the code and the state of the cache: where it sets a charmap,
    it sets the former one back. *)
Theorem lookup_never_changes_faces cmap_cache fid ci code w :
  w_faces (FTC_CMapCache_Lookup cmap_cache fid ci code w).2 = w_faces w.
Proof.
  destruct cmap_cache; [done|]. rewrite lookup_unfold. cbv zeta.
  set (q := {| q_face_id := fid |}). set (h := FTC_CMAP_HASH _ _ _).
  assert (Hcmp : w_faces (FTC_CACHE_LOOKUP_CMP h q w).2 = w_faces w).
  { unfold FTC_CACHE_LOOKUP_CMP, FTC_Cache_NewNode.
    destruct (find_node _ _ _); [done|].
    by destruct (ftc_cmap_node_new _ _) as [err [node|]]. }
  destruct (FTC_CACHE_LOOKUP_CMP h q w) as [[err [p|]] w1]; cbn [fst snd] in *;
    case_bool_decide; try done.
  by rewrite lookup_in_node_faces.
Qed.

(** The node and the cell a lookup of a pending entry works on: the
    node found, with the world as it was, or the fresh node put in front
    of the cache with memory from the allocator. *)
Lemma located_explicit fid index code w :
  cache_ok w -> is_uint32 code -> pending w fid index code ->
  exists p w0 hn,
    FTC_CACHE_LOOKUP_CMP (FTC_CMAP_HASH fid index code)
      {| q_face_id := fid; q_cmap_index := index; q_char_code := code |} w
    = ((FT_TS_Err_Ok, Some p), w0)
    /\ find_node (w_nodes w0) (FTC_CMAP_HASH fid index code)
         {| q_face_id := fid; q_cmap_index := index; q_char_code := code |} = Some p
    /\ w_nodes w0 !! p = Some hn
    /\ face_id hn.2 = fid
    /\ to_uint32 (code - first hn.2) < FTC_CMAP_INDICES_MAX
    /\ indices hn.2 !! Z.to_nat (to_uint32 (code - first hn.2)) = Some FTC_CMAP_UNKNOWN
    /\ cache_ok w0 /\ w_trace w0 = w_trace w /\ w_faces w0 = w_faces w
    /\ ((find_node (w_nodes w) (FTC_CMAP_HASH fid index code)
           {| q_face_id := fid; q_cmap_index := index; q_char_code := code |} = Some p
         /\ w0 = w)
        \/ (find_node (w_nodes w) (FTC_CMAP_HASH fid index code)
              {| q_face_id := fid; q_cmap_index := index; q_char_code := code |} = None
            /\ (exists raw, w_alloc w = Some raw :: w_alloc w0)
            /\ w_nodes w0
               = (FTC_CMAP_HASH fid index code,
                  fresh_node {| q_face_id := fid; q_cmap_index := index;
                                q_char_code := code |}) :: w_nodes w)).
Proof.
  intros Hok Hc Hpend.
  destruct (pending_located _ _ _ _ Hok Hc Hpend)
    as (p & w0 & hn & Hcmp & Hfind & Hp & Hfid & Hoff & _ & Hu & Hfaces & Htrace & Hok0 & _).
  exists p, w0, hn. do 9 (split; [done|]).
  destruct (find_node (w_nodes w) _ _) as [p'|] eqn:E.
  - rewrite (cmp_found _ _ _ _ E) in Hcmp. left. by simplify_eq.
  - right. split; [done|]. unfold pending, cached, cached_in in Hpend.
    rewrite E in Hpend. simpl in Hpend. destruct Hpend as (raw & rest & Ha).
    destruct Hok as [_ Hblocks]. rewrite Ha in Hblocks.
    apply Forall_cons in Hblocks as [Hraw _].
    rewrite (cmp_new _ _ _ raw rest) in Hcmp by done.
    simplify_eq. split; [|done]. by exists raw.
Qed.

(** The nodes and the allocator after a lookup: the cache is as before,
    or has the fresh node of the query's bucket in front, and at most the
    one cell of the query, which held the sentinel, is written. *)
Lemma lookup_nodes_after fid ci code w :
  cache_ok w -> is_uint32 code ->
  let h := FTC_CMAP_HASH fid (key_index ci) code in
  let q := {| q_face_id := fid; q_cmap_index := key_index ci; q_char_code := code |} in
  let r := FTC_CMapCache_Lookup cache_live fid ci code w in
  exists nodes0,
    Forall entry_ok nodes0
    /\ ((nodes0 = w_nodes w /\ w_alloc r.2 = w_alloc w
         /\ is_Some (find_node (w_nodes w) h q))
        \/ (nodes0 = w_nodes w /\ w_nodes r.2 = w_nodes w
            /\ find_node (w_nodes w) h q = None
            /\ w_alloc r.2 = tail (w_alloc w)
            /\ forall raw rest, w_alloc w <> Some raw :: rest)
        \/ (find_node (w_nodes w) h q = None
            /\ nodes0 = (h, fresh_node q) :: w_nodes w
            /\ exists raw, w_alloc w = Some raw :: w_alloc r.2))
    /\ (w_nodes r.2 = nodes0
        \/ exists p hn v,
             find_node nodes0 h q = Some p
             /\ nodes0 !! p = Some hn
             /\ indices hn.2 !! Z.to_nat (to_uint32 (code - first hn.2))
                = Some FTC_CMAP_UNKNOWN
             /\ w_nodes r.2
                = alter (set_node_index (Z.to_nat (to_uint32 (code - first hn.2))) v)
                        p nodes0).
Proof.
  intros Hok Hc h q r. subst r.
  destruct (entry_cases w fid (key_index ci) code) as [(v & Hv & Hne)|[Hpend|[Hv Ha]]].
  - rewrite (lookup_hit _ _ _ _ v) by (done || by apply cache_ok_nodes). cbn [fst snd].
    exists (w_nodes w). split; [by apply cache_ok_nodes|]. split; [|by left].
    destruct (cached_in_Some _ _ _ _ _ (cache_ok_nodes _ Hok) Hc Hv) as (p & _ & E & _).
    left. split_and!; try done; subst h q; rewrite E; by eexists.
  - destruct (located_explicit _ _ _ _ Hok Hc Hpend)
      as (p & w0 & hn & Hcmp & Hfind & Hp & Hfid & Hoff & Hu & Hok0 & _ & _ & Hhow).
    rewrite lookup_unfold. cbv zeta. fold (key_index ci). rewrite Hcmp. cbn [fst snd].
    rewrite bool_decide_eq_true_2 by done.
    exists (w_nodes w0). split; [by apply cache_ok_nodes|].
    destruct (w_faces w0 !! face_id hn.2) as [f|] eqn:Hf.
    + rewrite (lookup_in_node_resolve _ _ _ _ _ hn Hp Hoff f Hu Hf). cbv zeta. projs.
      split.
      * destruct Hhow as [[E ->]|(Hmiss & Halloc & Hnodes)].
        -- left. split_and!; try done; subst h q; rewrite E; by eexists.
        -- right; right. by rewrite Hnodes.
      * right. by eexists p, hn, _.
    + rewrite (lookup_in_node_noface _ _ _ _ _ hn Hp Hoff Hu Hf). unfold emit. projs.
      split; [|by left].
      destruct Hhow as [[E ->]|(Hmiss & Halloc & Hnodes)].
      * left. split_and!; try done; subst h q; rewrite E; by eexists.
      * right; right. by rewrite Hnodes.
  - rewrite lookup_no_memory by done. unfold with_alloc. projs.
    exists (w_nodes w). split; [by apply cache_ok_nodes|]. split; [|by left].
    right; left. split_and!; try done.
    apply cached_in_None; [by apply cache_ok_nodes|done..].
Qed.

Lemma alter_triples off v p (nodes : list (Z * FTC_CMapNodeRec)) :
  node_triple <$> alter (set_node_index off v) p nodes = node_triple <$> nodes.
Proof.
  revert p. induction nodes as [|hn nodes IH]; intros [|p]; simpl; try done.
  f_equal. apply IH.
Qed.

(** Writing the cell of one key leaves the cell of every other key as it
    is. *)
Lemma cells_kept_store nodes fid index code p hn v fid' index' code' :
  Forall entry_ok nodes -> is_uint32 code -> is_uint32 code' ->
  find_node nodes (FTC_CMAP_HASH fid index code)
    {| q_face_id := fid; q_cmap_index := index; q_char_code := code |} = Some p ->
  nodes !! p = Some hn ->
  (fid', index', code') <> (fid, index, code) ->
  cached_in (alter (set_node_index (Z.to_nat (to_uint32 (code - first hn.2))) v) p nodes)
            fid' index' code'
  = cached_in nodes fid' index' code'.
Proof.
  intros Hall Hc Hc' Hfind Hp Hkey. unfold cached_in.
  rewrite (find_node_keys (alter _ p nodes) nodes) by apply alter_keys.
  destruct (find_node nodes (FTC_CMAP_HASH fid' index' code') _) as [p0|] eqn:E0; [|done].
  simpl. destruct (decide (p0 = p)) as [->|Hpp]; [|by rewrite list_lookup_alter_ne].
  rewrite list_lookup_alter_eq, Hp. simpl.
  destruct (found_node _ _ _ _ _ Hall Hc Hfind) as (hn1 & Hp1 & Hok1 & Hf1 & Hi1 & Hb1 & _).
  destruct (found_node _ _ _ _ _ Hall Hc' E0) as (hn2 & Hp2 & _ & Hf2 & Hi2 & Hb2 & _).
  assert (hn1 = hn) as -> by congruence. assert (hn2 = hn) as -> by congruence.
  destruct Hok1 as [(Hr & Hm & _) _].
  apply (aligned_of_bucket _ _ Hm) in Hb1. apply (aligned_of_bucket _ _ Hm) in Hb2.
  rewrite list_lookup_insert_ne; [done|].
  rewrite !to_uint32_sub_ge by (done || lia).
  intros Heq. apply Hkey. f_equal; [congruence|lia].
Qed.

(** Putting the fresh node of a missed query in front keeps every cell. *)
Lemma cells_kept_new nodes fid index code fid' index' code' v :
  Forall entry_ok nodes -> is_uint32 code -> is_uint32 code' ->
  find_node nodes (FTC_CMAP_HASH fid index code)
    {| q_face_id := fid; q_cmap_index := index; q_char_code := code |} = None ->
  cached_in nodes fid' index' code' = Some v ->
  cached_in
    ((FTC_CMAP_HASH fid index code,
      fresh_node {| q_face_id := fid; q_cmap_index := index; q_char_code := code |}) :: nodes)
    fid' index' code' = Some v.
Proof.
  intros Hall Hc Hc' Hmiss Hv.
  destruct (cached_in_Some _ _ _ _ _ Hall Hc' Hv) as (p0 & hn0 & E0 & Hp0 & Hv0).
  destruct (found_node _ _ _ _ _ Hall Hc' E0) as (hn & Hp & Hok & Hf & Hi & Hb & _).
  assert (hn = hn0) as -> by congruence.
  unfold cached_in. simpl.
  destruct (decide (node_matches _ _ _)) as [Hm|Hm].
  - exfalso. apply (matches_bucket _ _ _ _ (fresh_node_ok fid index code Hc) Hc') in Hm.
    simpl in Hm. destruct Hm as (-> & -> & Hb').
    rewrite Z.div_mul in Hb' by lia.
    apply (find_node_None _ _ _ hn0 Hmiss); [by eapply list_elem_of_lookup_2|].
    apply (matches_bucket _ _ _ _ Hok Hc). split_and!; try done. congruence.
  - rewrite E0. simpl. rewrite Hp0. simpl. done.
Qed.

(** X5.  A lookup writes one cell only: the entry of every other key (face,
    charmap index, code) is after the lookup what it was before. *)
Theorem lookup_keeps_other_entries cmap_cache fid ci code w fid' index' code' v :
  cache_ok w -> is_uint32 code -> is_uint32 code' ->
  (fid', index', code') <> (fid, key_index ci, code) ->
  cached w fid' index' code' = Some v ->
  cached (FTC_CMapCache_Lookup cmap_cache fid ci code w).2 fid' index' code' = Some v.
Proof.
  intros Hok Hc Hc' Hkey Hv. destruct cmap_cache; [done|].
  destruct (lookup_nodes_after fid ci code w Hok Hc) as (nodes0 & Hall0 & Hfront & Hcell).
  assert (Hv0 : cached_in nodes0 fid' index' code' = Some v).
  { destruct Hfront as [(-> & _)|[(-> & _)|(Hmiss & -> & _)]]; [done..|].
    apply cells_kept_new; try done. by apply cache_ok_nodes. }
  unfold cached. destruct Hcell as [->|(p & hn & v' & Hfind & Hp & _ & ->)]; [done|].
  by rewrite (cells_kept_store nodes0 fid (key_index ci) code p hn v').
Qed.

Lemma lookup_keeps_unique cmap_cache fid ci code w :
  cache_ok w -> is_uint32 code ->
  NoDup (node_triple <$> w_nodes w) ->
  NoDup (node_triple <$> w_nodes (FTC_CMapCache_Lookup cmap_cache fid ci code w).2).
Proof.
  intros Hok Hc Hnd. destruct cmap_cache; [done|].
  destruct (lookup_nodes_after fid ci code w Hok Hc) as (nodes0 & Hall0 & Hfront & Hcell).
  assert (Hnd0 : NoDup (node_triple <$> nodes0)).
  { destruct Hfront as [(-> & _)|[(-> & _)|(Hmiss & -> & _)]]; [done..|].
    rewrite fmap_cons. apply NoDup_cons. split; [|done].
    intros Hin. apply list_elem_of_fmap in Hin as (hn & Ht & Hin).
    apply (find_node_None _ _ _ hn Hmiss Hin).
    pose proof Hin as Hin'. apply list_elem_of_lookup in Hin' as [i Hi].
    pose proof (entry_ok_in _ _ _ (cache_ok_nodes _ Hok) Hi) as Hokn.
    apply (matches_bucket _ _ _ _ Hokn Hc).
    unfold node_triple, fresh_node in Ht. projs. injection Ht as Hf Hidx Hfirst.
    split_and!; try done. rewrite <- Hfirst. by rewrite Z.div_mul by lia. }
  destruct Hcell as [->|(p & hn & v' & _ & _ & _ & ->)]; [done|].
  by rewrite alter_triples.
Qed.

(** X6.  At most one node answers for a face, a charmap index and a
    bucket: if no two resident nodes have the same face, index and first
    code, as in the empty cache, none have after any run of lookups. *)
Theorem one_node_per_bucket acts w :
  cache_ok w -> Forall action_ok acts ->
  NoDup (node_triple <$> w_nodes w) ->
  NoDup (node_triple <$> w_nodes (run acts w)).
Proof.
  revert w. induction acts as [|a acts IH]; intros w Hok Hacts Hnd; [done|].
  apply Forall_cons in Hacts as [Ha Hacts]. simpl.
  destruct (step_preserves a w Hok Ha) as [Hok1 _]. apply IH; try done.
  destruct a as [cmap_cache fid ci code|fs]; simpl; [|done].
  destruct Ha as [_ Hc]. by apply lookup_keeps_unique.
Qed.

(** X7.  Codes of one bucket share one node: when a node is resident for a
    code of the bucket, the lookup of another code of that bucket takes
    no memory and adds no node. *)
Theorem same_bucket_shares_node fid ci code code' v' w :
  cache_ok w -> is_uint32 code -> is_uint32 code' ->
  code' / 128 = code / 128 ->
  cached w fid (key_index ci) code' = Some v' ->
  let r := FTC_CMapCache_Lookup cache_live fid ci code w in
  w_alloc r.2 = w_alloc w
  /\ node_key <$> w_nodes r.2 = node_key <$> w_nodes w
  /\ length (w_nodes r.2) = length (w_nodes w).
Proof.
  intros Hok Hc Hc' Hb Hv r.
  pose proof (cache_ok_nodes _ Hok) as Hall.
  destruct (cached_in_Some _ _ _ _ _ Hall Hc' Hv) as (p' & hn' & E' & Hp' & _).
  destruct (found_node _ _ _ _ _ Hall Hc' E') as (hn & Hp & Hokn & Hf & Hi & Hb' & _).
  assert (Hfound : find_node (w_nodes w) (FTC_CMAP_HASH fid (key_index ci) code)
            {| q_face_id := fid; q_cmap_index := key_index ci; q_char_code := code |}
          <> None).
  { intros Hmiss. apply (find_node_None _ _ _ hn Hmiss); [by eapply list_elem_of_lookup_2|].
    apply (matches_bucket _ _ _ _ Hokn Hc). split_and!; try done. congruence. }
  destruct (lookup_nodes_after fid ci code w Hok Hc) as (nodes0 & _ & Hfront & Hcell).
  fold r in Hfront, Hcell.
  destruct Hfront as [(-> & Ha & _)|[(_ & _ & Hmiss & _)|(Hmiss & _)]]; try done.
  assert (Hkeys : node_key <$> w_nodes r.2 = node_key <$> w_nodes w).
  { destruct Hcell as [->|(p & hn0 & v & _ & _ & _ & ->)]; [done|apply alter_keys]. }
  split_and!; try done.
  by rewrite <- (length_fmap node_key), Hkeys, length_fmap.
Qed.

(** X8.  A miss makes the whole bucket resident: when no node answers and
    memory is available, the lookup takes one block, puts one node keyed
    by the query's hash, face, index and bucket in front of the cache,
    and every other code of the bucket has the sentinel as its entry. *)
Theorem miss_makes_bucket_resident fid ci code raw rest w :
  cache_ok w -> is_uint32 code ->
  cached w fid (key_index ci) code = None ->
  w_alloc w = Some raw :: rest ->
  let r := FTC_CMapCache_Lookup cache_live fid ci code w in
  w_alloc r.2 = rest
  /\ node_key <$> w_nodes r.2
     = (FTC_CMAP_HASH fid (key_index ci) code, fid, key_index ci, code / 128 * 128)
       :: (node_key <$> w_nodes w)
  /\ forall code', is_uint32 code' -> code' / 128 = code / 128 -> code' <> code ->
       cached r.2 fid (key_index ci) code' = Some FTC_CMAP_UNKNOWN.
Proof.
  intros Hok Hc Hv Ha r.
  pose proof (cache_ok_nodes _ Hok) as Hall.
  pose proof (cached_in_None _ _ _ _ Hall Hc Hv) as Hmiss.
  destruct (lookup_nodes_after fid ci code w Hok Hc) as (nodes0 & Hall0 & Hfront & Hcell).
  fold r in Hfront, Hcell.
  destruct Hfront as [(_ & _ & [p Hsome])|[(_ & _ & _ & _ & Hno)|(_ & -> & raw' & Ha')]].
  { by rewrite Hmiss in Hsome. }
  { by destruct (Hno raw rest). }
  split; [congruence|].
  set (q := {| q_face_id := fid; q_cmap_index := key_index ci; q_char_code := code |}) in *.
  set (h := FTC_CMAP_HASH fid (key_index ci) code) in *.
  split.
  { destruct Hcell as [->|(p & hn0 & v & _ & _ & _ & ->)]; [done|].
    by rewrite alter_keys. }
  intros code' Hc' Hb Hne.
  assert (Hhead : cached_in ((h, fresh_node q) :: w_nodes w) fid (key_index ci) code'
                  = Some FTC_CMAP_UNKNOWN).
  { subst q h. unfold cached_in. cbn [find_node]. rewrite decide_True.
    - cbn [mbind option_bind lookup list_lookup]. unfold fresh_node. projs.
      apply lookup_replicate_2.
      assert (0 <= code' - code / 128 * 128 < 128).
      { pose proof (Z.div_mod code' 128 ltac:(lia)) as Hdm.
        pose proof (Z.mod_pos_bound code' 128 eq_refl) as Hmb. rewrite <- Hb. lia. }
      rewrite to_uint32_id by (unfold is_uint32; lia).
      unfold FTC_CMAP_INDICES_MAX. lia.
    - apply (matches_bucket _ _ _ _ (fresh_node_ok fid (key_index ci) code Hc) Hc').
      unfold fresh_node. projs. split_and!; try done. by rewrite Z.div_mul by lia. }
  unfold cached. destruct Hcell as [->|(p & hn0 & v & Hfind & Hp & _ & ->)]; [done|].
  rewrite (cells_kept_store _ fid (key_index ci) code p hn0 v); try done.
  intros [= ?]. done.
Qed.

(** X9.  The calls of one lookup: none; or the face resolver alone; or the
    face resolver and one glyph query; or, only with a non-negative
    index, the face resolver, a charmap switch, one glyph query under
    the new charmap and the switch back to the former charmap. *)
Theorem lookup_call_pattern cmap_cache fid ci code w :
  cache_ok w -> is_uint32 code ->
  exists evs,
    w_trace (FTC_CMapCache_Lookup cmap_cache fid ci code w).2 = w_trace w ++ evs
    /\ (evs = []
        \/ evs = [EvLookupFace fid]
        \/ (exists c, evs = [EvLookupFace fid; EvGetCharIndex fid c code])
        \/ (exists c old, c <> old /\ 0 <= ci
              /\ evs = [EvLookupFace fid; EvSetCharmap fid c; EvGetCharIndex fid c code;
                        EvSetCharmap fid old])).
Proof.
  intros Hok Hc. destruct cmap_cache.
  { exists []. rewrite lookup_null, app_nil_r. by split; [|left]. }
  destruct (entry_cases w fid (key_index ci) code) as [(v & Hv & Hne)|[Hpend|[Hv Ha]]].
  - exists []. rewrite (lookup_hit _ _ _ _ v) by (done || by apply cache_ok_nodes).
    rewrite app_nil_r. by split; [|left].
  - destruct (lookup_pending _ _ _ _ Hok Hc Hpend) as (w1 & Hcase & _).
    destruct (w_faces w !! fid) as [f|].
    + cbv zeta in Hcase. destruct Hcase as (E & _ & Ht). rewrite E. cbn [fst snd].
      rewrite Ht. eexists. split; [reflexivity|]. unfold resolution.
      destruct (bool_decide (ci < 0)) eqn:Eneg;
        destruct (bool_decide (to_uint32 _ < to_uint32 _));
        try (right; left; reflexivity);
        destruct (bool_decide (charmap f <> _)) eqn:Eold; cbn;
        try (right; right; left; eexists; reflexivity).
      right; right; right. apply bool_decide_eq_true in Eold.
      apply bool_decide_eq_false in Eneg.
      eexists _, _. split; [|split; [|reflexivity]]; [congruence|lia].
    + destruct Hcase as (E & _ & Ht). rewrite E. cbn [fst snd].
      eexists. split; [exact Ht|]. right; left; done.
  - exists []. rewrite lookup_no_memory by done. unfold with_alloc. projs.
    rewrite app_nil_r. by split; [|left].
Qed.

(** X10.  When no node answers and the allocation fails, the lookup returns 0,
    calls neither the face resolver nor the font service, adds no node,
    and leaves the entry absent, so that a later lookup tries again. *)
Theorem lookup_out_of_memory fid ci code w :
  cache_ok w -> is_uint32 code ->
  cached w fid (key_index ci) code = None ->
  (forall raw rest, w_alloc w <> Some raw :: rest) ->
  let r := FTC_CMapCache_Lookup cache_live fid ci code w in
  r.1 = 0
  /\ w_nodes r.2 = w_nodes w
  /\ w_trace r.2 = w_trace w
  /\ w_alloc r.2 = tail (w_alloc w)
  /\ cached r.2 fid (key_index ci) code = None.
Proof.
  intros Hok Hc Hv Ha r. subst r. by rewrite lookup_no_memory.
Qed.

(** X11.  A negative index is the index 0 without the charmap switch: when the
    face's active charmap already is its first charmap, the lookup with a
    negative index and the lookup with index 0 return the same glyph
    index and leave the same world. *)
Theorem negative_index_as_index_0 fid ci code w :
  cache_ok w -> is_uint32 code -> ci < 0 ->
  (forall f, w_faces w !! fid = Some f -> charmap f = default 0 (charmaps f !! 0%nat)) ->
  FTC_CMapCache_Lookup cache_live fid ci code w
  = FTC_CMapCache_Lookup cache_live fid 0 code w.
Proof.
  intros Hok Hc Hneg Hactive.
  pose proof (key_index_neg ci Hneg) as Hk.
  assert (Hk0 : key_index 0 = 0) by done.
  destruct (entry_cases w fid 0 code) as [(v & Hv & Hne)|[Hpend|[Hv Ha]]].
  - rewrite (lookup_hit fid ci code w v), (lookup_hit fid 0 code w v);
      rewrite ?Hk, ?Hk0; try done; by apply cache_ok_nodes.
  - destruct (located_explicit _ _ _ _ Hok Hc Hpend)
      as (p & w0 & hn & Hcmp & _ & Hp & Hfid & Hoff & Hu & _ & _ & Hfaces & _).
    rewrite !lookup_unfold. cbv zeta. fold (key_index ci). fold (key_index 0).
    rewrite Hk, Hk0, Hcmp. cbn [fst snd].
    rewrite (bool_decide_eq_true_2 (ci < 0)) by done.
    rewrite (bool_decide_eq_false_2 (0 < 0)) by lia.
    rewrite bool_decide_eq_true_2 by done.
    destruct (w_faces w0 !! face_id hn.2) as [f|] eqn:Hf.
    + rewrite !(lookup_in_node_resolve _ _ _ _ _ hn Hp Hoff f Hu Hf).
      assert (Hres : resolution true 0 (face_id hn.2) f code
                     = resolution false 0 (face_id hn.2) f code).
      { unfold resolution. change (Z.to_nat 0) with 0%nat.
        rewrite <- (Hactive f) by (by rewrite <- Hfaces, <- Hfid).
        by rewrite (bool_decide_eq_false_2 (charmap f <> charmap f)) by auto. }
      by rewrite Hres.
    + by rewrite !(lookup_in_node_noface _ _ _ _ _ hn Hp Hoff Hu Hf).
  - rewrite (lookup_no_memory fid ci code w), (lookup_no_memory fid 0 code w);
      rewrite ?Hk, ?Hk0; done.
Qed.

(** X12.  From an empty cache, every run of lookups leaves only nodes of the
    constructor's shape: the first code is a 32-bit multiple of 128, the
    array has 128 entries, each a 16-bit value, and the node is filed
    under the hash of its own face, index and first code. *)
Theorem run_keeps_nodes_well_formed acts w h n :
  w_nodes w = [] -> Forall block_ok (w_alloc w) -> Forall action_ok acts ->
  (h, n) ∈ w_nodes (run acts w) ->
  first n mod 128 = 0
  /\ 0 <= first n < 2 ^ 32
  /\ length (indices n) = 128%nat
  /\ (forall v, v ∈ indices n -> 0 <= v < 2 ^ 16)
  /\ h = FTC_CMAP_HASH (face_id n) (cmap_index n) (first n).
Proof.
  intros Hempty Hblocks Hacts Hin.
  assert (Hok : cache_ok w) by (split; [by rewrite Hempty|done]).
  destruct (run_preserves acts w Hok Hacts) as [[Hall _] _].
  rewrite Forall_forall in Hall. destruct (Hall _ Hin) as [(Hr & Hm & Hlen & H16) Hh].
  simpl in Hr, Hm, Hlen, H16, Hh.
  split; [exact Hm|]. split; [exact Hr|]. split; [exact Hlen|]. split; [|exact Hh].
  intros v Hv. rewrite Forall_forall in H16. by apply H16.
Qed.

End CMapCache.

(** ** The PFR metrics API *)

Section PfrProperties.

Variable lookup_service : PFR_FaceRec -> option FT_TS_Service_PfrMetricsRec.
Variable base_kerning : PFR_FaceRec -> Z -> Z -> Z -> Z -> Memory -> FT_TS_Error * Memory.

Lemma write_if_lookup p v (m : gmap Z Z) a :
  write_if p v m !! a = if decide (p = Some a) then Some v else m !! a.
Proof.
  destruct p as [b|]; simpl.
  - destruct (decide (Some b = Some a)) as [[= ->]|Hne].
    + by rewrite lookup_insert_eq.
    + rewrite lookup_insert_ne; [done|congruence].
  - done.
Qed.

(** X13.  For a face without the PFR service, [FT_TS_Get_PFR_Metrics] reports
    [Unknown_File_Format] and still fills every output it is given: both
    resolutions with the face's units per EM, the scales with those of
    the face's size, or 0x10000 when the face has no size; it writes to
    no other address. *)
Theorem pfr_metrics_fallback f ao am ax ay (m : gmap Z Z) :
  lookup_service f = None ->
  NoDup (omap id [ao; am; ax; ay]) ->
  let r := FT_TS_Get_PFR_Metrics lookup_service (Some f) ao am ax ay m in
  let xs := match size f with Some s => x_scale s | None => 65536 end in
  let ys := match size f with Some s => y_scale s | None => 65536 end in
  r.1 = FT_TS_Err_Unknown_File_Format
  /\ (forall a, ao = Some a -> r.2 !! a = Some (to_uint32 (units_per_EM f)))
  /\ (forall a, am = Some a -> r.2 !! a = Some (to_uint32 (units_per_EM f)))
  /\ (forall a, ax = Some a -> r.2 !! a = Some xs)
  /\ (forall a, ay = Some a -> r.2 !! a = Some ys)
  /\ (forall a, Some a ∉ [ao; am; ax; ay] -> r.2 !! a = m !! a).
Proof.
  intros Hsvc Hnd r xs ys. subst r xs ys.
  unfold FT_TS_Get_PFR_Metrics, ft_pfr_check. rewrite Hsvc.
  destruct (size f) as [s|]; cbn [fst snd];
    (split; [done|]);
    (split_and!; intros a Ha; rewrite !write_if_lookup;
     [subst ao|subst am|subst ax|subst ay|];
     simpl in Hnd;
     repeat (match goal with
             | H : NoDup (_ :: _) |- _ => apply NoDup_cons in H as [? ?]
             | H : NoDup (match ?p with _ => _ end) |- _ => destruct p; simpl in H
             | H : _ ∉ _ :: _ |- _ => apply not_elem_of_cons in H as [? ?]
             end);
     repeat (case_decide; simplify_eq; try done);
     repeat (match goal with
             | H : Some _ ∉ _ |- _ => rewrite !not_elem_of_cons in H
             end); naive_solver).
Qed.

(** X14.  [FT_TS_Get_PFR_Metrics] and [FT_TS_Get_PFR_Advance] succeed only
    through the PFR service: a result without error is the result of the
    service's own function on a non-NULL face (and a non-NULL output for
    the advance). *)
Theorem pfr_success_only_through_service face ao am ax ay gindex aadvance (m : gmap Z Z) :
  ((FT_TS_Get_PFR_Metrics lookup_service face ao am ax ay m).1 = FT_TS_Err_Ok ->
   exists f service,
     face = Some f /\ lookup_service f = Some service
     /\ FT_TS_Get_PFR_Metrics lookup_service face ao am ax ay m
        = get_metrics service f ao am ax ay m)
  /\ ((FT_TS_Get_PFR_Advance lookup_service face gindex aadvance m).1 = FT_TS_Err_Ok ->
      exists f service aa,
        face = Some f /\ aadvance = Some aa /\ lookup_service f = Some service
        /\ FT_TS_Get_PFR_Advance lookup_service face gindex aadvance m
           = get_advance service f gindex aa m).
Proof.
  unfold FT_TS_Get_PFR_Metrics, FT_TS_Get_PFR_Advance, ft_pfr_check. split.
  - destruct face as [f|]; [|done].
    destruct (lookup_service f) as [service|] eqn:Hsvc.
    + intros _. by exists f, service.
    + by destruct (size f).
  - destruct face as [f|]; [|done]. destruct aadvance as [aa|]; [|done].
    destruct (lookup_service f) as [service|] eqn:Hsvc; [|done].
    intros _. by exists f, service, aa.
Qed.

(** X15.  A call the API rejects writes nothing: a NULL face gives
    [Invalid_Face_Handle] in all three functions, before the output
    pointer is looked at; a NULL vector or advance pointer gives
    [Invalid_Argument]; the advance of a face without the PFR service
    gives [Invalid_Argument]; and the kerning of such a face is the
    unscaled kerning of the base layer. *)
Theorem pfr_rejected_calls_write_nothing f ao am ax ay left right avector gindex
    aadvance a (m : gmap Z Z) :
  FT_TS_Get_PFR_Metrics lookup_service None ao am ax ay m
    = (FT_TS_Err_Invalid_Face_Handle, m)
  /\ FT_TS_Get_PFR_Kerning lookup_service base_kerning None left right avector m
     = (FT_TS_Err_Invalid_Face_Handle, m)
  /\ FT_TS_Get_PFR_Advance lookup_service None gindex aadvance m
     = (FT_TS_Err_Invalid_Face_Handle, m)
  /\ FT_TS_Get_PFR_Kerning lookup_service base_kerning (Some f) left right None m
     = (FT_TS_Err_Invalid_Argument, m)
  /\ FT_TS_Get_PFR_Advance lookup_service (Some f) gindex None m
     = (FT_TS_Err_Invalid_Argument, m)
  /\ (lookup_service f = None ->
      FT_TS_Get_PFR_Advance lookup_service (Some f) gindex (Some a) m
        = (FT_TS_Err_Invalid_Argument, m)
      /\ FT_TS_Get_PFR_Kerning lookup_service base_kerning (Some f) left right (Some a) m
         = base_kerning f left right FT_TS_KERNING_UNSCALED a m).
Proof.
  split_and!; try done. intros Hsvc.
  unfold FT_TS_Get_PFR_Advance, FT_TS_Get_PFR_Kerning, ft_pfr_check. by rewrite Hsvc.
Qed.

End PfrProperties.

(** ** The properties at a concrete world *)

Lemma example_world_ok : cache_ok pointer_hash example_world.
Proof. split; simpl; repeat constructor. Qed.

Lemma example_world_pending fid index code :
  pending pointer_hash example_world fid index code.
Proof. unfold pending, cached, cached_in. simpl. by eexists _, _. Qed.

Lemma uint32_65 : is_uint32 65.
Proof. unfold is_uint32. lia. Qed.

Lemma example_actions_ok :
  Forall action_ok [ActLookup cache_live 5 0 66; ActSetFaces ∅; ActLookup cache_live 5 1 65].
Proof. repeat constructor; unfold is_uint32; lia. Qed.

(** C4 at the node of bucket 128: the code 127, below the node's first
    code, is refused, and the codes 127 and 130, of different buckets,
    are not both accepted. *)
Lemma compare_matches_bucket_witness :
  let node := fresh_node {| q_face_id := 5; q_cmap_index := 0; q_char_code := 130 |} in
  let query := {| q_face_id := 5; q_cmap_index := 0; q_char_code := 127 |} in
  let query' := {| q_face_id := 5; q_cmap_index := 0; q_char_code := 130 |} in
  (ftc_cmap_node_compare node query None).1 = false
  /\ ~ ((ftc_cmap_node_compare node query None).1 = true
        /\ (ftc_cmap_node_compare node query' (Some true)).1 = true).
Proof.
  intros node query query'.
  destruct (compare_matches_bucket node query None) as [_ H].
  destruct H as [Hbelow Hbuckets].
  - destruct (fresh_node_ok pointer_hash 5 0 130) as [Hnode _];
      [unfold is_uint32; lia|exact Hnode].
  - unfold query, is_uint32. simpl. lia.
  - split.
    + apply Hbelow. reflexivity.
    + apply Hbuckets.
      * unfold query', is_uint32. simpl. lia.
      * vm_compute. discriminate.
Defined.

(** C5 at the code 65 and the uninitialised block. *)
Lemma node_new_bucket_witness :
  exists node,
    ftc_cmap_node_new (Some raw_block)
      {| q_face_id := 5; q_cmap_index := 0; q_char_code := 65 |} = (FT_TS_Err_Ok, Some node)
    /\ first node = 0
    /\ indices node = replicate 128 65535.
Proof.
  destruct (node_new_bucket {| q_face_id := 5; q_cmap_index := 0; q_char_code := 65 |}
              raw_block) as [(node & E & _ & _ & Hfirst & _ & _ & _ & Hind) _].
  - exact uint32_65.
  - reflexivity.
  - exists node. split; [exact E|]. split; [exact Hfirst|exact Hind].
Defined.

(** C1, with "the same glyph index as the first call", does not hold:
    with the symbol charmap (index 1) the first lookup of the code 65
    returns 70065 and stores the non-sentinel value 4529; the second
    lookup returns 4529. *)
Lemma lookup_not_idempotent_beyond_16_bits :
  cached pointer_hash
    (FTC_CMapCache_Lookup pointer_hash cache_live 5 1 65 example_world).2 5 1 65 = Some 4529
  /\ 4529 <> FTC_CMAP_UNKNOWN
  /\ (FTC_CMapCache_Lookup pointer_hash cache_live 5 1 65 example_world).1 = 70065
  /\ (FTC_CMapCache_Lookup pointer_hash cache_live 5 1 65
        (FTC_CMapCache_Lookup pointer_hash cache_live 5 1 65 example_world).2).1 = 4529
  /\ (FTC_CMapCache_Lookup pointer_hash cache_live 5 1 65
        (FTC_CMapCache_Lookup pointer_hash cache_live 5 1 65 example_world).2).1
     <> (FTC_CMapCache_Lookup pointer_hash cache_live 5 1 65 example_world).1.
Proof. vm_compute. split_and!; try reflexivity; discriminate. Qed.

(** C1 (amended) at the Unicode charmap: the code 65 resolves to 36, and
    after other lookups and the loss of every face the lookup still
    returns 36 and changes nothing. *)
Lemma lookup_idempotent_witness :
  let acts := [ActLookup cache_live 5 0 66; ActSetFaces ∅; ActLookup cache_live 5 1 65] in
  let w2 := run pointer_hash acts
              (FTC_CMapCache_Lookup pointer_hash cache_live 5 0 65 example_world).2 in
  (FTC_CMapCache_Lookup pointer_hash cache_live 5 0 65 example_world).1 = 36
  /\ FTC_CMapCache_Lookup pointer_hash cache_live 5 0 65 w2 = (36, w2).
Proof.
  intros acts w2.
  destruct (lookup_idempotent pointer_hash 5 0 65 example_world 36 acts)
    as (_ & Hsame & _ & Hagain).
  - exact example_world_ok.
  - exact uint32_65.
  - exact example_actions_ok.
  - vm_compute. reflexivity.
  - discriminate.
  - split; [|exact Hagain]. symmetry. apply Hsame. vm_compute. reflexivity.
Defined.

(** C2 at the Unicode charmap while the symbol charmap is active. *)
Lemma lookup_restores_charmap_witness :
  let r := FTC_CMapCache_Lookup pointer_hash cache_live 5 0 65 example_world in
  r.1 = 36
  /\ w_trace r.2 = [EvLookupFace 5; EvSetCharmap 5 1000; EvGetCharIndex 5 1000 65;
                    EvSetCharmap 5 2000]
  /\ charmap <$> w_faces r.2 !! 5 = Some 2000.
Proof.
  intros r.
  destruct (lookup_restores_charmap pointer_hash 5 0 65 example_world example_face 1000)
    as (Hg & Ht & _ & Hactive).
  - exact example_world_ok.
  - unfold is_int32. lia.
  - exact uint32_65.
  - lia.
  - apply example_world_pending.
  - reflexivity.
  - unfold is_int32. simpl. lia.
  - simpl. lia.
  - reflexivity.
  - discriminate.
  - split; [exact Hg|]. split; [exact Ht|exact Hactive].
Defined.

(** C3 at the index -1. *)
Lemma lookup_no_change_mode_witness :
  let r := FTC_CMapCache_Lookup pointer_hash cache_live 5 (-1) 65 example_world in
  node_key <$> w_nodes r.2
    = node_key <$> w_nodes (FTC_CMapCache_Lookup pointer_hash cache_live 5 0 65 example_world).2
  /\ w_faces r.2 = w_faces example_world.
Proof.
  intros r.
  destruct (lookup_no_change_mode pointer_hash cache_live 5 (-1) 65 example_world)
    as (_ & Hkeys & _ & Hfaces).
  - exact example_world_ok.
  - exact uint32_65.
  - lia.
  - split; [exact Hkeys|exact Hfaces].
Defined.

(** C6 at the index 5 of a face with two charmaps. *)
Lemma lookup_index_out_of_range_witness :
  let acts := [ActLookup cache_live 5 0 66; ActSetFaces ∅; ActLookup cache_live 5 1 65] in
  let r1 := FTC_CMapCache_Lookup pointer_hash cache_live 5 5 65 example_world in
  let w2 := run pointer_hash acts r1.2 in
  r1.1 = 0
  /\ cached pointer_hash r1.2 5 5 65 = Some 0
  /\ w_trace r1.2 = [EvLookupFace 5]
  /\ FTC_CMapCache_Lookup pointer_hash cache_live 5 5 65 w2 = (0, w2).
Proof.
  intros acts r1 w2.
  destruct (lookup_index_out_of_range pointer_hash 5 5 65 example_world example_face acts)
    as (H0 & Hc & Ht & Hagain).
  - exact example_world_ok.
  - unfold is_int32. lia.
  - exact uint32_65.
  - exact example_actions_ok.
  - apply example_world_pending.
  - reflexivity.
  - vm_compute. split; discriminate.
  - split; [exact H0|]. split; [exact Hc|]. split; [exact Ht|exact Hagain].
Defined.

(** C7 at the face identifier 9, which the manager does not resolve. *)
Lemma lookup_face_failure_witness :
  let r1 := FTC_CMapCache_Lookup pointer_hash cache_live 9 0 65 example_world in
  let r2 := FTC_CMapCache_Lookup pointer_hash cache_live 9 0 65 r1.2 in
  r1.1 = 0
  /\ cached pointer_hash r1.2 9 0 65 = Some 65535
  /\ w_trace r2.2 = [EvLookupFace 9; EvLookupFace 9].
Proof.
  intros r1 r2.
  destruct (lookup_face_failure pointer_hash 9 0 65 example_world)
    as (H0 & Hc & Ht & _ & Ht2 & _).
  - exact example_world_ok.
  - exact uint32_65.
  - apply example_world_pending.
  - reflexivity.
  - split; [exact H0|]. split; [exact Hc|].
    fold r1 in Ht, Ht2. fold r2 in Ht2. rewrite Ht2, Ht. reflexivity.
Defined.

(** C9 at the symbol charmap: the code 65 has the glyph index 70065,
    returned as such and then served as 4529; the code 61071 has the
    glyph index 131071, whose low 16 bits are the sentinel, and is
    resolved anew by the next lookup. *)
Lemma lookup_stores_low_16_bits_witness :
  let r1 := FTC_CMapCache_Lookup pointer_hash cache_live 5 1 65 example_world in
  let s1 := FTC_CMapCache_Lookup pointer_hash cache_live 5 1 61071 example_world in
  let s2 := FTC_CMapCache_Lookup pointer_hash cache_live 5 1 61071 s1.2 in
  (r1.1 = 70065
   /\ cached pointer_hash r1.2 5 1 65 = Some 4529
   /\ FTC_CMapCache_Lookup pointer_hash cache_live 5 1 65 r1.2 = (4529, r1.2))
  /\ (s1.1 = 131071
      /\ cached pointer_hash s1.2 5 1 61071 = Some 65535
      /\ s2.1 = 131071
      /\ w_trace s2.2 = w_trace s1.2 ++ [EvLookupFace 5; EvGetCharIndex 5 2000 61071]).
Proof.
  intros r1 s1 s2. split.
  - destruct (lookup_stores_low_16_bits pointer_hash 5 1 65 example_world example_face [] 0)
      as (Hg & Hc & Hserved & _).
    + exact example_world_ok.
    + exact uint32_65.
    + constructor.
    + apply example_world_pending.
    + reflexivity.
    + split; [exact Hg|]. split; [exact Hc|].
      apply Hserved. vm_compute. discriminate.
  - destruct (lookup_stores_low_16_bits pointer_hash 5 1 61071 example_world example_face [] 0)
      as (Hg & Hc & _ & Hagain).
    + exact example_world_ok.
    + unfold is_uint32. lia.
    + constructor.
    + apply example_world_pending.
    + reflexivity.
    + destruct Hagain as (_ & Hg2 & Ht2); [vm_compute; reflexivity|].
      split; [exact Hg|]. split; [exact Hc|]. split; [exact Hg2|exact Ht2].
Defined.

(** C10 at the index -1: with the symbol charmap active the key of index
    0 receives 4529, with the Unicode charmap active it receives 36. *)
Lemma no_change_mode_caches_active_charmap_witness :
  let w' := with_faces example_world
              (<[5 := set_face_charmap 1000 example_face]> (w_faces example_world)) in
  let r := FTC_CMapCache_Lookup pointer_hash cache_live 5 (-1) 65 example_world in
  let r' := FTC_CMapCache_Lookup pointer_hash cache_live 5 (-1) 65 w' in
  cached pointer_hash r.2 5 0 65 = Some 4529
  /\ cached pointer_hash r'.2 5 0 65 = Some 36
  /\ cached pointer_hash r.2 5 0 65 <> cached pointer_hash r'.2 5 0 65.
Proof.
  intros w' r r'.
  destruct (no_change_mode_caches_active_charmap pointer_hash 5 (-1) 65 example_world
              example_face 1000 [])
    as (Hg & Hc & Hg' & Hc' & _ & Hdiff).
  - exact example_world_ok.
  - exact uint32_65.
  - constructor.
  - lia.
  - apply example_world_pending.
  - reflexivity.
  - vm_compute. reflexivity.
  - fold w' in Hg', Hc', Hdiff. fold r in Hg, Hc, Hdiff. fold r' in Hg', Hc', Hdiff.
    rewrite Hg in Hc. rewrite Hg' in Hc'.
    split; [exact Hc|]. split; [exact Hc'|]. apply Hdiff. vm_compute. discriminate.
Defined.

(** ** The further properties at a concrete world *)

(** The Unicode charmap made active, and the allocator out of memory. *)
Lemma unicode_active_world_ok :
  cache_ok pointer_hash
    (with_faces example_world {[ 5 := set_face_charmap 1000 example_face ]}).
Proof. split; simpl; repeat constructor. Qed.

Lemma no_memory_world_ok : cache_ok pointer_hash (with_alloc example_world [None]).
Proof. split; simpl; repeat constructor. Qed.

Lemma new_node_answers_its_bucket_witness :
  exists node,
    ftc_cmap_node_new (Some raw_block)
      {| q_face_id := 5; q_cmap_index := 0; q_char_code := 130 |} = (FT_TS_Err_Ok, Some node)
    /\ (ftc_cmap_node_compare node
          {| q_face_id := 5; q_cmap_index := 0; q_char_code := 255 |} None).1 = true.
Proof.
  destruct (new_node_answers_its_bucket
              {| q_face_id := 5; q_cmap_index := 0; q_char_code := 130 |} raw_block)
    as (node & E & _ & Hiff).
  - unfold is_uint32. simpl. lia.
  - reflexivity.
  - exists node. split; [exact E|]. apply Hiff.
    + unfold is_uint32. simpl. lia.
    + simpl. split; [reflexivity|]. split; reflexivity.
Defined.

Lemma accepted_query_has_node_hash_witness :
  let node := fresh_node {| q_face_id := 5; q_cmap_index := 1; q_char_code := 130 |} in
  FTC_CMAP_HASH pointer_hash 5 1 255 = FTC_CMAP_HASH pointer_hash 5 1 (first node).
Proof.
  intros node.
  destruct (accepted_query_has_node_hash pointer_hash node
              {| q_face_id := 5; q_cmap_index := 1; q_char_code := 255 |} None)
    as [Hh _].
  - destruct (fresh_node_ok pointer_hash 5 1 130) as [Hnode _];
      [unfold is_uint32; lia|exact Hnode].
  - unfold is_uint32. simpl. lia.
  - reflexivity.
  - exact Hh.
Defined.

Lemma remove_faceid_selects_answering_nodes_witness :
  let node := fresh_node {| q_face_id := 5; q_cmap_index := 1; q_char_code := 130 |} in
  (ftc_cmap_node_remove_faceid node 5 (Some true)).1 = true
  /\ (ftc_cmap_node_remove_faceid node 5 (Some true)).2 = Some false.
Proof.
  intros node.
  destruct (remove_faceid_selects_answering_nodes node
              {| q_face_id := 5; q_cmap_index := 1; q_char_code := 255 |} 5 (Some true))
    as (Hsel & Hflag & _).
  - reflexivity.
  - split; [apply Hsel; reflexivity|exact Hflag].
Defined.

(** After the code 65 is resolved to 36, the lookup of the code 66 of
    the same bucket leaves the entry of 65 as it is. *)
Lemma lookup_keeps_other_entries_witness :
  let w1 := (FTC_CMapCache_Lookup pointer_hash cache_live 5 0 65 example_world).2 in
  cached pointer_hash (FTC_CMapCache_Lookup pointer_hash cache_live 5 0 66 w1).2 5 0 65
  = Some 36.
Proof.
  intros w1.
  apply (lookup_keeps_other_entries pointer_hash cache_live 5 0 66 w1 5 0 65 36).
  - destruct (lookup_preserves pointer_hash cache_live 5 0 65 example_world
                example_world_ok uint32_65) as [Hok _]. exact Hok.
  - unfold is_uint32. lia.
  - exact uint32_65.
  - vm_compute. discriminate.
  - vm_compute. reflexivity.
Defined.

Lemma one_node_per_bucket_witness :
  NoDup (node_triple <$>
         w_nodes (run pointer_hash
                    [ActLookup cache_live 5 0 66; ActSetFaces ∅; ActLookup cache_live 5 1 65]
                    example_world)).
Proof.
  apply (one_node_per_bucket pointer_hash).
  - exact example_world_ok.
  - exact example_actions_ok.
  - apply NoDup_nil_2.
Defined.

Lemma same_bucket_shares_node_witness :
  let w1 := (FTC_CMapCache_Lookup pointer_hash cache_live 5 0 65 example_world).2 in
  let r := FTC_CMapCache_Lookup pointer_hash cache_live 5 0 127 w1 in
  w_alloc r.2 = w_alloc w1 /\ length (w_nodes r.2) = length (w_nodes w1).
Proof.
  intros w1 r.
  destruct (same_bucket_shares_node pointer_hash 5 0 127 65 36 w1) as (Ha & _ & Hlen).
  - destruct (lookup_preserves pointer_hash cache_live 5 0 65 example_world
                example_world_ok uint32_65) as [Hok _]. exact Hok.
  - unfold is_uint32. lia.
  - exact uint32_65.
  - reflexivity.
  - vm_compute. reflexivity.
  - split; [exact Ha|exact Hlen].
Defined.

Lemma miss_makes_bucket_resident_witness :
  let r := FTC_CMapCache_Lookup pointer_hash cache_live 5 0 65 example_world in
  w_alloc r.2 = [Some raw_block; None]
  /\ cached pointer_hash r.2 5 0 127 = Some FTC_CMAP_UNKNOWN.
Proof.
  intros r.
  destruct (miss_makes_bucket_resident pointer_hash 5 0 65 raw_block [Some raw_block; None]
              example_world) as (Ha & _ & Hrest).
  - exact example_world_ok.
  - exact uint32_65.
  - reflexivity.
  - reflexivity.
  - split; [exact Ha|]. apply Hrest.
    + unfold is_uint32. lia.
    + reflexivity.
    + discriminate.
Defined.

Lemma lookup_call_pattern_witness :
  exists evs,
    w_trace (FTC_CMapCache_Lookup pointer_hash cache_live 5 0 65 example_world).2
    = w_trace example_world ++ evs
    /\ (evs = []
        \/ evs = [EvLookupFace 5]
        \/ (exists c, evs = [EvLookupFace 5; EvGetCharIndex 5 c 65])
        \/ (exists c old, c <> old /\ 0 <= 0
              /\ evs = [EvLookupFace 5; EvSetCharmap 5 c; EvGetCharIndex 5 c 65;
                        EvSetCharmap 5 old])).
Proof.
  apply (lookup_call_pattern pointer_hash cache_live 5 0 65 example_world).
  - exact example_world_ok.
  - exact uint32_65.
Defined.

Lemma lookup_out_of_memory_witness :
  let r := FTC_CMapCache_Lookup pointer_hash cache_live 5 0 65
             (with_alloc example_world [None]) in
  r.1 = 0 /\ w_nodes r.2 = [] /\ w_trace r.2 = [].
Proof.
  intros r.
  destruct (lookup_out_of_memory pointer_hash 5 0 65 (with_alloc example_world [None]))
    as (H0 & Hn & Ht & _).
  - exact no_memory_world_ok.
  - exact uint32_65.
  - reflexivity.
  - intros raw rest. discriminate.
  - split; [exact H0|]. split; [exact Hn|exact Ht].
Defined.

Lemma negative_index_as_index_0_witness :
  let w := with_faces example_world {[ 5 := set_face_charmap 1000 example_face ]} in
  FTC_CMapCache_Lookup pointer_hash cache_live 5 (-1) 65 w
  = FTC_CMapCache_Lookup pointer_hash cache_live 5 0 65 w.
Proof.
  intros w. apply (negative_index_as_index_0 pointer_hash).
  - exact unicode_active_world_ok.
  - exact uint32_65.
  - lia.
  - intros f Hf. unfold w in Hf. cbn [w_faces with_faces] in Hf.
    rewrite lookup_singleton_eq in Hf. injection Hf as <-. reflexivity.
Defined.

Lemma run_keeps_nodes_well_formed_witness :
  let nodes := w_nodes (run pointer_hash
                          [ActLookup cache_live 5 0 66; ActSetFaces ∅;
                           ActLookup cache_live 5 1 65] example_world) in
  let hn := hd (0, null_node) nodes in
  hn ∈ nodes /\ first hn.2 mod 128 = 0 /\ length (indices hn.2) = 128%nat.
Proof.
  intros nodes hn.
  assert (Hin : hn ∈ nodes).
  { unfold hn. destruct nodes as [|x l] eqn:E; [discriminate E|]. apply list_elem_of_here. }
  split; [exact Hin|].
  destruct (run_keeps_nodes_well_formed pointer_hash
              [ActLookup cache_live 5 0 66; ActSetFaces ∅; ActLookup cache_live 5 1 65]
              example_world hn.1 hn.2) as (Hm & _ & Hlen & _).
  - reflexivity.
  - simpl. repeat constructor.
  - exact example_actions_ok.
  - destruct hn. exact Hin.
  - split; [exact Hm|exact Hlen].
Defined.

(** The metrics of a face that is not a PFR font and has no size. *)
Lemma pfr_metrics_fallback_witness :
  let r := FT_TS_Get_PFR_Metrics (fun _ => None) (Some example_pfr_face)
             (Some 10) None (Some 30) (Some 40) ∅ in
  r.1 = FT_TS_Err_Unknown_File_Format
  /\ r.2 !! 10 = Some 2048 /\ r.2 !! 30 = Some 65536 /\ r.2 !! 40 = Some 65536
  /\ r.2 !! 20 = None.
Proof.
  intros r.
  destruct (pfr_metrics_fallback (fun _ => None) example_pfr_face
              (Some 10) None (Some 30) (Some 40) ∅)
    as (He & Ho & _ & Hx & Hy & Hframe).
  - reflexivity.
  - simpl. repeat (apply NoDup_cons_2; [rewrite ?elem_of_cons, elem_of_nil; intros H;
      repeat (destruct H as [H|H]; [discriminate H|]); exact H|]). apply NoDup_nil_2.
  - split; [exact He|]. split; [exact (Ho 10 eq_refl)|].
    split; [exact (Hx 30 eq_refl)|]. split; [exact (Hy 40 eq_refl)|].
    transitivity ((∅ : gmap Z Z) !! 20); [apply (Hframe 20)|reflexivity].
    rewrite !elem_of_cons, elem_of_nil. intros H.
    repeat (destruct H as [H|H]; [discriminate H|]). exact H.
Defined.
